(** * SourceKit cursor info: snapshot offset remapping and AST reuse

    A shallow embedding of the decision logic of
    [tools/SourceKit/lib/SwiftLang/SwiftSourceDocInfo.cpp]: the two offset
    remappers over the edit records between two text snapshots, the
    location remapper built on them, the consumer that decides whether an
    existing AST may be reused, the cursor resolution pipeline with its
    retry, and the related-identifier scanner. *)

From Stdlib Require Import ZArith List Ascii String Bool Lia.
Import ListNotations.
Open Scope Z_scope.

(** ** Machine integers

    [unsigned] is 32 bits wide and [size_t] 64 bits wide; both are held in
    [Z] and every operation of the source that can wrap is written with
    the reduction it performs. *)

Definition wrap32 (z : Z) : Z := z mod 2 ^ 32.
Definition wrap64 (z : Z) : Z := z mod 2 ^ 64.

(** ** Edit records

    [ReplaceImmutableTextUpdate] as the source reads it: [getByteOffset]
    and [getLength] are [unsigned], [getText] is the inserted text, whose
    [size()] is a [size_t]. *)

Record ReplaceImmutableTextUpdate : Type := mkReplace
  { getByteOffset : Z;
    getLength : Z;
    getText : string }.

Definition textSize (Upd : ReplaceImmutableTextUpdate) : Z :=
  Z.of_nat (String.length (getText Upd)).

(** Modelled from the spec: [ImmutableTextSnapshot::foreachReplaceUntil]
    lives in ImmutableTextBuffer.cpp, which is not part of the sources at
    hand.  Section 4.1 makes it the enumeration, in chain order, of the
    edit records that turn the older snapshot into the newer one; the
    callback is run on each record in turn, a [false] from the callback
    stops the enumeration, and the result tells whether the enumeration
    ran to its end.  The records between the two snapshots are the list
    [Updates]; the state captured by reference in the callback is [st]. *)
Fixpoint foreachReplaceUntil {St : Type}
    (Updates : list ReplaceImmutableTextUpdate)
    (Fn : St -> ReplaceImmutableTextUpdate -> St * bool)
    (st : St) : St * bool :=
  match Updates with
  | [] => (st, true)
  | Upd :: rest =>
      let '(st', go_on) := Fn st Upd in
      if go_on then foreachReplaceUntil rest Fn st' else (st', false)
  end.

(** ** [mapOffsetToNewerSnapshot] *)

(** The callback handed to [foreachReplaceUntil]; the captured [Offset] is
    the state.  [getByteOffset() + getLength()] is an [unsigned] sum;
    [Offset += getText().size()] is computed in [size_t] and stored back
    into an [unsigned]. *)
Definition newerCallback (Offset : Z) (Upd : ReplaceImmutableTextUpdate)
    : Z * bool :=
  if (getByteOffset Upd <=? Offset)
     && (Offset <? wrap32 (getByteOffset Upd + getLength Upd))
  then (Offset, false) (* Offset is part of removed text. *)
  else if getByteOffset Upd <=? Offset
  then
    let Offset1 := wrap32 (wrap64 (Offset + textSize Upd)) in
    let Offset2 := wrap32 (Offset1 - getLength Upd) in
    (Offset2, true)
  else (Offset, true).

Definition mapOffsetToNewerSnapshot (Offset : Z)
    (Updates : list ReplaceImmutableTextUpdate) : option Z :=
  let '(Offset', Completed) :=
    foreachReplaceUntil Updates newerCallback Offset in
  if Completed then Some Offset' else None.

(** ** [mapOffsetToOlderSnapshot] *)

(** The first loop only collects the records ([push_back], always
    [true]). *)
Definition collectCallback (Acc : list ReplaceImmutableTextUpdate)
    (Upd : ReplaceImmutableTextUpdate)
    : list ReplaceImmutableTextUpdate * bool :=
  (Acc ++ [Upd], true).

(** One turn of the second loop, which walks the collected records from
    the last to the first.  Here the sum [getByteOffset() +
    getText().size()] is a [size_t], and so is the comparison. *)
Definition undoUpdate (Offset : Z) (Upd : ReplaceImmutableTextUpdate)
    : option Z :=
  if (getByteOffset Upd <=? Offset)
     && (Offset <? wrap64 (getByteOffset Upd + textSize Upd))
  then None (* Offset is part of newly inserted text. *)
  else if getByteOffset Upd <=? Offset
  then
    let Offset1 := wrap32 (Offset + getLength Upd) in
    let Offset2 := wrap32 (wrap64 (Offset1 - textSize Upd)) in
    Some Offset2
  else Some Offset.

Fixpoint undoLoop (Offset : Z) (Reversed : list ReplaceImmutableTextUpdate)
    : option Z :=
  match Reversed with
  | [] => Some Offset
  | Upd :: rest =>
      match undoUpdate Offset Upd with
      | None => None
      | Some Offset' => undoLoop Offset' rest
      end
  end.

Definition mapOffsetToOlderSnapshot (Offset : Z)
    (Updates : list ReplaceImmutableTextUpdate) : option Z :=
  let '(Collected, _) := foreachReplaceUntil Updates collectCallback [] in
  undoLoop Offset (rev Collected).

(** ** Snapshots and the collaborators of this file *)

(** An [ImmutableTextSnapshot] as this file uses it: the buffer it belongs
    to ([isFromSameBuffer]), its stamp ([getStamp]) and the text of its
    buffer ([getBuffer()->getInternalBuffer()]). *)
Record ImmutableTextSnapshot : Type := mkSnapshot
  { getBufferId : nat;
    getStamp : Z;
    getBufferText : string }.

Definition isFromSameBuffer (A B : ImmutableTextSnapshot) : bool :=
  Nat.eqb (getBufferId A) (getBufferId B).

(** What the file consumes from code that is not part of it: the edit
    records that [Old->foreachReplaceUntil(New, ...)] enumerates, and the
    lexer's [getTokenAt(Loc).getText()] on a buffer text. *)
Class Collaborators : Type :=
  { replacesBetween :
      ImmutableTextSnapshot -> ImmutableTextSnapshot ->
      list ReplaceImmutableTextUpdate;
    tokenTextAt : string -> Z -> string }.

(** [SwiftLangSupport] as this file uses it:
    [getEditorDocuments().findByPath(F)] followed by [getLatestSnapshot()]
    ([None] when either is null), [getIFaceGenContexts().find(M, _)]
    followed by [getDocumentName()], and the name of the identifier that
    [getUIDForModuleRef] returns. *)
Record SwiftLangSupport : Type := mkLang
  { latestSnapshotOf : string -> option ImmutableTextSnapshot;
    findIFaceGenDocument : string -> option string;
    getUIDForModuleRef : string }.

Section WithCollaborators.
Context `{Ext : Collaborators}.

Definition getSourceToken (Offset : Z) (Snap : ImmutableTextSnapshot)
    : string :=
  tokenTextAt (getBufferText Snap) Offset.

(** ** [tryRemappingLocToLatestSnapshot] *)

(** The [for] loop over [PreviousASTSnaps]; every path through the first
    snapshot of the same buffer returns. *)
Fixpoint remapOverPreviousSnaps (LatestSnap : ImmutableTextSnapshot)
    (Range : Z * Z) (PreviousASTSnaps : list ImmutableTextSnapshot)
    : option (Z * Z) :=
  match PreviousASTSnaps with
  | [] => Some Range
  | PrevSnap :: rest =>
      if isFromSameBuffer PrevSnap LatestSnap then
        if getStamp PrevSnap =? getStamp LatestSnap then Some Range
        else
          match mapOffsetToNewerSnapshot (fst Range)
                  (replacesBetween PrevSnap LatestSnap) with
          | None => None
          | Some OptBegin =>
              match mapOffsetToNewerSnapshot
                      (wrap32 (fst Range + snd Range))
                      (replacesBetween PrevSnap LatestSnap) with
              | None => None
              | Some OptEnd => Some (OptBegin, wrap32 (OptEnd - OptBegin))
              end
          end
      else remapOverPreviousSnaps LatestSnap Range rest
  end.

Definition tryRemappingLocToLatestSnapshot (Lang : SwiftLangSupport)
    (Range : Z * Z) (Filename : string)
    (PreviousASTSnaps : list ImmutableTextSnapshot) : option (Z * Z) :=
  match latestSnapshotOf Lang Filename with
  | None => Some Range
  | Some LatestSnap =>
      remapOverPreviousSnaps LatestSnap Range PreviousASTSnaps
  end.

(** ** [CursorInfoConsumer::canUseASTWithSnapshots] *)

(** The mutable members of the consumer ([Lang], [ASTInvok] and
    [Receiver] never change and are passed alongside). *)
Record CursorInfoConsumer : Type := mkConsumer
  { InputFile : string;
    Offset : Z;
    TryExistingAST : bool;
    PreviousASTSnaps : list ImmutableTextSnapshot }.

(** The lambda [mappedBackOffset]. *)
Fixpoint mappedBackOffset (Offset : Z) (InputSnap : ImmutableTextSnapshot)
    (Snapshots : list ImmutableTextSnapshot) : option Z :=
  match Snapshots with
  | [] => None
  | Snap :: rest =>
      if isFromSameBuffer Snap InputSnap then
        if getStamp Snap =? getStamp InputSnap then Some Offset
        else
          match mapOffsetToOlderSnapshot Offset
                  (replacesBetween Snap InputSnap) with
          | None => None
          | Some OptOffset =>
              (* Check that the new and old offset still point to the
                 same token. *)
              let NewTok := getSourceToken Offset InputSnap in
              if String.eqb NewTok EmptyString then None
              else if String.eqb NewTok (getSourceToken OptOffset Snap)
              then Some OptOffset
              else None
          end
      else mappedBackOffset Offset InputSnap rest
  end.

(** Returns the answer and the consumer as the call leaves it. *)
Definition canUseASTWithSnapshots (Lang : SwiftLangSupport)
    (C : CursorInfoConsumer) (Snapshots : list ImmutableTextSnapshot)
    : bool * CursorInfoConsumer :=
  if negb (TryExistingAST C) then (false, C)
  else
    match latestSnapshotOf Lang (InputFile C) with
    | None => (false, C)
    | Some InputSnap =>
        match mappedBackOffset (Offset C) InputSnap Snapshots with
        | Some OldOffset =>
            (true,
             {| InputFile := InputFile C;
                Offset := OldOffset;
                TryExistingAST := TryExistingAST C;
                PreviousASTSnaps := PreviousASTSnaps C ++ Snapshots |})
        | None => (false, C)
        end
    end.

End WithCollaborators.

(** ** Declarations, tokens and responses *)

Record CursorInfo : Type := mkCursorInfo
  { Kind : string;
    Name : string;
    USR : string;
    TypeName : string;
    DocComment : string;
    AnnotatedDeclaration : string;
    FullyAnnotatedDeclaration : string;
    ModuleName : string;
    ModuleInterfaceName : string;
    DeclarationLoc : option (Z * Z);
    Filename : string;
    OverrideUSRs : list string;
    AnnotatedRelatedDeclarations : list string;
    GroupName : string;
    IsSystem : bool;
    TypeInterface : string;
    IsCancelled : bool }.

(** [CursorInfo Info;] and [Receiver({})]: every field value-initialised. *)
Definition emptyCursorInfo : CursorInfo :=
  {| Kind := ""; Name := ""; USR := ""; TypeName := ""; DocComment := "";
     AnnotatedDeclaration := ""; FullyAnnotatedDeclaration := "";
     ModuleName := ""; ModuleInterfaceName := ""; DeclarationLoc := None;
     Filename := ""; OverrideUSRs := []; AnnotatedRelatedDeclarations := [];
     GroupName := ""; IsSystem := false; TypeInterface := "";
     IsCancelled := false |}.

Inductive DeclKind : Type :=
  | ConstructorDecl | DestructorDecl | SubscriptDecl
  | FuncDecl | VarDecl | ParamDecl | NominalTypeDecl | OtherDecl.

(** One site visited by [ide::SourceEntityWalker]: a declaration with the
    range of its name, or a reference with its range and, for a
    constructor call written through a type name, that type.
    Declarations are compared by address in the source; [nat] identities
    stand for the addresses.  A range is the pair that [passId] computes
    from a [CharSourceRange]: offset in the buffer and byte length. *)
Inductive SourceEntity : Type :=
  | DeclSite (D : nat) (Range : Z * Z)
  | ReferenceSite (D : nat) (Range : Z * Z) (CtorTyRef : option nat).

(** A [ValueDecl] as this file reads it.  The printers, the USR
    generator, the documentation extractor and the module lookup are
    collaborators whose output for the declaration is recorded in the
    fields from [printedKind] on; [getLocationInfo] yields [declLoc] and
    [declFilename]. *)
Record ValueDecl : Type := mkValueDecl
  { declId : nat;
    declKind : DeclKind;
    nameIsOperator : bool;
    isUnavailable : bool;
    localContext : option (list SourceEntity);
    declLoc : option (Z * Z);
    declFilename : string;
    printedKind : bool -> string;
    printedName : string;
    printedUSR : string;
    printedTypeName : string;
    printedDocComment : string;
    printedDeclaration : string;
    printedFullDeclaration : string;
    printedGroupName : string;
    printedOverrideUSRs : list string;
    printedRelatedDecls : list string;
    owningModuleName : string;
    inSystemModule : bool;
    printedTypeInterface : string }.

Record ModuleEntity : Type := mkModuleEntity
  { modName : string;
    modFullName : string;
    modIsSystem : bool }.

(** [SemaToken], with null pointers as [None]. *)
Record SemaToken : Type := mkSemaToken
  { ValueD : option ValueDecl;
    CtorTyRef : option ValueDecl;
    Mod : option ModuleEntity;
    IsRef : bool;
    IsKeywordArgument : bool }.

(** Modelled from the spec: [SemaToken::isInvalid] is declared in
    swift/IDE/Utils.h, which is not part of the sources at hand; a token
    names a declaration or a module, and is invalid when it names
    neither. *)
Definition isInvalid (Tok : SemaToken) : bool :=
  match ValueD Tok, Mod Tok with
  | None, None => true
  | _, _ => false
  end.

(** An [ASTUnit] as the consumers use it: the snapshots it was built
    from, [Lexer::getLocForStartOfToken] on its primary buffer ([None]
    for an invalid location; a valid location is held as its offset),
    [SemaLocResolver::resolve], and the sites of the primary source file
    in the order the walker visits them. *)
Record ASTUnit : Type := mkASTUnit
  { getSnapshots : list ImmutableTextSnapshot;
    getLocForStartOfToken : Z -> option Z;
    resolve : Z -> SemaToken;
    primarySourceFile : list SourceEntity }.

(** What one query does that can be observed from outside. *)
Inductive Event : Type :=
  | EvResolveCursor (Offset : Z) (TryExistingAST : bool)
  | EvExistingAST
  | EvBuildAST
  | EvReceiver (Info : CursorInfo).

Inductive BuildResult : Type :=
  | BuildDone (Unit : ASTUnit)
  | BuildCancelled
  | BuildFailed (Error : string).

(** Modelled from the spec: [SwiftASTManager::processASTAsync] is defined
    in SwiftASTManager.cpp, which is not part of the sources at hand.
    Section 4.4 has it offer an existing AST, if there is one, to the
    consumer's [canUseASTWithSnapshots] and otherwise build; each build
    ends in an AST, a cancellation or a failure.  [buildOutcome n] is the
    outcome of the build requested after [n] earlier ones. *)
Record SwiftASTManager : Type := mkASTManager
  { getExistingAST : option ASTUnit;
    buildOutcome : nat -> BuildResult }.

Section Pipeline.
Context `{Ext : Collaborators}.

(** ** [passCursorInfoForModule] and [passCursorInfoForDecl]

    Each returns the error flag and the calls made to [Receiver]. *)

Definition passCursorInfoForModule (Mod : ModuleEntity)
    (Lang : SwiftLangSupport) : bool * list Event :=
  let Info :=
    {| Kind := getUIDForModuleRef Lang;
       Name := modName Mod;
       USR := ""; TypeName := ""; DocComment := "";
       AnnotatedDeclaration := ""; FullyAnnotatedDeclaration := "";
       ModuleName := modFullName Mod;
       ModuleInterfaceName :=
         match findIFaceGenDocument Lang (modFullName Mod) with
         | Some Doc => Doc
         | None => ""
         end;
       DeclarationLoc := None; Filename := ""; OverrideUSRs := [];
       AnnotatedRelatedDeclarations := []; GroupName := "";
       IsSystem := modIsSystem Mod; TypeInterface := "";
       IsCancelled := false |} in
  (false, [EvReceiver Info]).

Definition declCursorInfo (VD : ValueDecl) (IsRef : bool)
    (Lang : SwiftLangSupport) (DeclarationLoc : option (Z * Z))
    : CursorInfo :=
  {| Kind := printedKind VD IsRef;
     Name := printedName VD;
     USR := printedUSR VD;
     TypeName := printedTypeName VD;
     DocComment := printedDocComment VD;
     AnnotatedDeclaration := printedDeclaration VD;
     FullyAnnotatedDeclaration := printedFullDeclaration VD;
     ModuleName := owningModuleName VD;
     ModuleInterfaceName :=
       match findIFaceGenDocument Lang (owningModuleName VD) with
       | Some Doc => Doc
       | None => ""
       end;
     DeclarationLoc := DeclarationLoc;
     Filename := declFilename VD;
     OverrideUSRs := printedOverrideUSRs VD;
     AnnotatedRelatedDeclarations := printedRelatedDecls VD;
     GroupName := printedGroupName VD;
     IsSystem := inSystemModule VD;
     TypeInterface := printedTypeInterface VD;
     IsCancelled := false |}.

(** Returns [true] for failure to resolve. *)
Definition passCursorInfoForDecl (VD : ValueDecl) (IsRef : bool)
    (Lang : SwiftLangSupport)
    (PreviousASTSnaps : list ImmutableTextSnapshot) : bool * list Event :=
  if isUnavailable VD then (true, [])
  else
    match declLoc VD with
    | Some Range =>
        match tryRemappingLocToLatestSnapshot Lang Range (declFilename VD)
                PreviousASTSnaps with
        | None => (true, []) (* failed to remap. *)
        | Some Remapped =>
            (false, [EvReceiver (declCursorInfo VD IsRef Lang (Some Remapped))])
        end
    | None => (false, [EvReceiver (declCursorInfo VD IsRef Lang None)])
    end.

(** [SemaTok.CtorTyRef ? SemaTok.CtorTyRef : SemaTok.ValueD] *)
Definition targetDecl (Tok : SemaToken) : option ValueDecl :=
  match CtorTyRef Tok with
  | Some T => Some T
  | None => ValueD Tok
  end.

(** ** [CursorInfoConsumer::handlePrimaryAST] and [resolveCursor]

    The two call each other; [resolveCursorAgain] is the call back into
    [resolveCursor], and [built] counts the builds requested so far. *)
Definition handlePrimaryAST
    (resolveCursorAgain : Z -> bool -> nat -> option (list Event))
    (Lang : SwiftLangSupport) (C : CursorInfoConsumer) (AstUnit : ASTUnit)
    (built : nat) : option (list Event) :=
  match getLocForStartOfToken AstUnit (Offset C) with
  | None => Some [EvReceiver emptyCursorInfo]
  | Some Loc =>
      let SemaTok := resolve AstUnit Loc in
      if isInvalid SemaTok then Some [EvReceiver emptyCursorInfo]
      else
        match Mod SemaTok with
        | Some M => Some (snd (passCursorInfoForModule M Lang))
        | None =>
            match targetDecl SemaTok with
            | None => Some [] (* not reached: the token is valid *)
            | Some VD =>
                let '(Failed, Calls) :=
                  passCursorInfoForDecl VD (IsRef SemaTok) Lang
                    (PreviousASTSnaps C) in
                if Failed then
                  match PreviousASTSnaps C with
                  | _ :: _ =>
                      (* Attempt again using the up-to-date AST. *)
                      match resolveCursorAgain (Offset C) false built with
                      | Some Again => Some (Calls ++ Again)
                      | None => None
                      end
                  | [] => Some (Calls ++ [EvReceiver emptyCursorInfo])
                  end
                else Some Calls
            end
        end
  end.

Definition cancelledInfo : CursorInfo :=
  {| Kind := ""; Name := ""; USR := ""; TypeName := ""; DocComment := "";
     AnnotatedDeclaration := ""; FullyAnnotatedDeclaration := "";
     ModuleName := ""; ModuleInterfaceName := ""; DeclarationLoc := None;
     Filename := ""; OverrideUSRs := []; AnnotatedRelatedDeclarations := [];
     GroupName := ""; IsSystem := false; TypeInterface := "";
     IsCancelled := true |}.

(** [resolveCursor] makes the consumer and hands it to
    [processASTAsync]; [fuel] bounds the nesting of [resolveCursor]
    inside [handlePrimaryAST], and [None] means it ran out. *)
Fixpoint resolveCursor (fuel : nat) (Mgr : SwiftASTManager)
    (Lang : SwiftLangSupport) (InputFile : string) (Offset : Z)
    (TryExistingAST : bool) (built : nat) : option (list Event) :=
  match fuel with
  | O => None
  | S fuel' =>
      let Again := fun Offset' Try' built' =>
        resolveCursor fuel' Mgr Lang InputFile Offset' Try' built' in
      let Consumer :=
        {| InputFile := InputFile; Offset := Offset;
           TryExistingAST := TryExistingAST; PreviousASTSnaps := [] |} in
      let build := fun C : CursorInfoConsumer =>
        match buildOutcome Mgr built with
        | BuildDone Unit =>
            option_map (cons EvBuildAST)
              (handlePrimaryAST Again Lang C Unit (S built))
        | BuildCancelled => Some [EvBuildAST; EvReceiver cancelledInfo]
        | BuildFailed _ => Some [EvBuildAST; EvReceiver emptyCursorInfo]
        end in
      option_map (cons (EvResolveCursor Offset TryExistingAST))
        match getExistingAST Mgr with
        | Some Unit =>
            let '(Use, C') :=
              canUseASTWithSnapshots Lang Consumer (getSnapshots Unit) in
            if Use then
              option_map (cons EvExistingAST)
                (handlePrimaryAST Again Lang C' Unit built)
            else build C'
        | None => build Consumer
        end
  end.

End Pipeline.

(** ** The related-identifier scanner *)

Record RelatedIdScanner : Type := mkScanner
  { Dcl : nat;
    Ranges : list (Z * Z);
    Cancelled : bool }.

Definition passId (S : RelatedIdScanner) (Range : Z * Z)
    : RelatedIdScanner * bool :=
  ({| Dcl := Dcl S; Ranges := Ranges S ++ [Range];
      Cancelled := Cancelled S |},
   negb (Cancelled S)).

Definition walkToDeclPre (S : RelatedIdScanner) (D : nat) (Range : Z * Z)
    : RelatedIdScanner * bool :=
  if Cancelled S then (S, false)
  else if Nat.eqb D (Dcl S) then passId S Range
  else (S, true).

Definition visitDeclReference (S : RelatedIdScanner) (D : nat)
    (Range : Z * Z) (CtorTyRef : option nat) : RelatedIdScanner * bool :=
  if Cancelled S then (S, false)
  else
    let D' := match CtorTyRef with Some T => T | None => D end in
    if Nat.eqb D' (Dcl S) then passId S Range
    else (S, true).

(** Modelled from the spec: [ide::SourceEntityWalker::walk] is defined in
    lib/IDE, which is not part of the sources at hand.  Section 4.6 has
    the walk visit every declaration site and every reference site of the
    scope and stop once the visitor asks it to. *)
Fixpoint walk (S : RelatedIdScanner) (Scope : list SourceEntity)
    : RelatedIdScanner :=
  match Scope with
  | [] => S
  | Site :: rest =>
      let '(S', go_on) :=
        match Site with
        | DeclSite D Range => walkToDeclPre S D Range
        | ReferenceSite D Range CtorTyRef =>
            visitDeclReference S D Range CtorTyRef
        end in
      if go_on then walk S' rest else S'
  end.

Record RelatedIdentsInfo : Type := mkRelatedIdentsInfo
  { InfoRanges : list (Z * Z);
    InfoIsCancelled : bool }.

Definition isCtorDtorOrSubscript (VD : ValueDecl) : bool :=
  match declKind VD with
  | ConstructorDecl | DestructorDecl | SubscriptDecl => true
  | _ => false
  end.

(** The lambda [Action] of [RelatedIdConsumer::handlePrimaryAST]; the
    result is [Ranges] as the lambda leaves it. *)
Definition relatedIdAction (Offset : Z) (AstUnit : ASTUnit)
    : list (Z * Z) :=
  match getLocForStartOfToken AstUnit Offset with
  | None => []
  | Some Loc =>
      let SemaTok := resolve AstUnit Loc in
      if isInvalid SemaTok then []
      else if IsKeywordArgument SemaTok then []
      else
        match targetDecl SemaTok with
        | None => [] (* This was a module reference. *)
        | Some VD =>
            (* Only accept pointing to an identifier. *)
            if negb (IsRef SemaTok) && isCtorDtorOrSubscript VD then []
            else if nameIsOperator VD then []
            else
              let Scanner :=
                {| Dcl := declId VD; Ranges := []; Cancelled := false |} in
              match localContext VD with
              | Some LocalDC => Ranges (walk Scanner LocalDC)
              | None => Ranges (walk Scanner (primarySourceFile AstUnit))
              end
        end
  end.

(** [RelatedIdConsumer::handlePrimaryAST]: the value handed to
    [Receiver]. *)
Definition relatedIdHandlePrimaryAST (Offset : Z) (AstUnit : ASTUnit)
    : RelatedIdentsInfo :=
  {| InfoRanges := relatedIdAction Offset AstUnit;
     InfoIsCancelled := false |}.

(** The sites the two visitor callbacks pass on: a declaration that is
    the target, a reference to it, or a constructor call through it. *)
Definition denotes (Target : nat) (Site : SourceEntity) : bool :=
  match Site with
  | DeclSite D _ => Nat.eqb D Target
  | ReferenceSite D _ CtorTyRef =>
      Nat.eqb (match CtorTyRef with Some T => T | None => D end) Target
  end.

Definition rangeOf (Site : SourceEntity) : Z * Z :=
  match Site with
  | DeclSite _ Range => Range
  | ReferenceSite _ Range _ => Range
  end.


(** ** The edit log and the remap of section 4.2, in the specification's
    words

    These definitions follow the specification, not the code; the
    theorems below compare the code with them. *)

(** Modelled from the spec: the text replacement an edit record stands
    for is carried out in ImmutableTextBuffer.cpp, which is not part of
    the sources at hand.  Section 3: an edit record is one contiguous
    replacement, of [getLength] bytes from [getByteOffset] on, by
    [getText]. *)
Fixpoint dropBytes (n : nat) (Text : string) : string :=
  match n, Text with
  | O, _ => Text
  | S n', EmptyString => EmptyString
  | S n', String _ rest => dropBytes n' rest
  end.

Fixpoint takeBytes (n : nat) (Text : string) : string :=
  match n, Text with
  | O, _ => EmptyString
  | S n', EmptyString => EmptyString
  | S n', String c rest => String c (takeBytes n' rest)
  end.

Definition applyReplace (Text : string) (Upd : ReplaceImmutableTextUpdate)
    : string :=
  (takeBytes (Z.to_nat (getByteOffset Upd)) Text
   ++ getText Upd
   ++ dropBytes (Z.to_nat (getByteOffset Upd + getLength Upd)) Text)%string.

(** A chain of edit records that applies to a snapshot of [Size] bytes:
    every record replaces bytes the text it applies to has, and every
    text along the chain can be addressed by an [unsigned]. *)
Fixpoint validChain (Size : Z) (Updates : list ReplaceImmutableTextUpdate)
    : bool :=
  match Updates with
  | [] => Size <? 2 ^ 32
  | Upd :: rest =>
      (Size <? 2 ^ 32)
      && (0 <=? getByteOffset Upd) && (0 <=? getLength Upd)
      && (getByteOffset Upd + getLength Upd <=? Size)
      && validChain (Size - getLength Upd + textSize Upd) rest
  end.

(** "the removed span [start, start+removedLen) contains the offset" *)
Definition insideRemovedSpan (O : Z) (Upd : ReplaceImmutableTextUpdate)
    : bool :=
  (getByteOffset Upd <=? O) && (O <? getByteOffset Upd + getLength Upd).

(** "edits entirely at or before the offset" *)
Definition entirelyAtOrBefore (O : Z) (Upd : ReplaceImmutableTextUpdate)
    : bool :=
  getByteOffset Upd + getLength Upd <=? O.

(** Forward remap as section 4.2 words it, in unbounded integers. *)
Fixpoint forwardRemapSpec (O : Z) (Updates : list ReplaceImmutableTextUpdate)
    : option Z :=
  match Updates with
  | [] => Some O
  | Upd :: rest =>
      if insideRemovedSpan O Upd then None (* offset removed *)
      else if entirelyAtOrBefore O Upd
      then forwardRemapSpec (O + textSize Upd - getLength Upd) rest
      else forwardRemapSpec O rest
  end.

(** Where the byte at [O] sits after one edit that does not remove it. *)
Definition shiftedBy (O : Z) (Upd : ReplaceImmutableTextUpdate) : Z :=
  if entirelyAtOrBefore O Upd then O + textSize Upd - getLength Upd else O.

(** "an offset that is not inside any edit's removed span": each edit is
    asked about the offset as it stands in the snapshot that edit
    applies to. *)
Fixpoint outsideRemovedSpans (O : Z)
    (Updates : list ReplaceImmutableTextUpdate) : bool :=
  match Updates with
  | [] => true
  | Upd :: rest =>
      negb (insideRemovedSpan O Upd)
      && outsideRemovedSpans (shiftedBy O Upd) rest
  end.

(** The first snapshot of a list that is from the same buffer as
    [Latest]: the one the two loops over snapshots stop at. *)
Definition candidateSnapshot (Latest : ImmutableTextSnapshot)
    (Snapshots : list ImmutableTextSnapshot) : option ImmutableTextSnapshot :=
  find (fun Snap => isFromSameBuffer Snap Latest) Snapshots.

(** What [validChain] says about the first record of a chain. *)
Definition fitsSnapshot (Size : Z) (Upd : ReplaceImmutableTextUpdate) : Prop :=
  Size < 2 ^ 32 /\ 0 <= getByteOffset Upd /\ 0 <= getLength Upd
  /\ getByteOffset Upd + getLength Upd <= Size
  /\ Size - getLength Upd + textSize Upd < 2 ^ 32.


(** The outcome of the build a fresh run waits for. *)
Definition freshOutcome `{Ext : Collaborators} (Lang : SwiftLangSupport) (C : CursorInfoConsumer)
    (Result : BuildResult) (built : nat) : option (list Event) :=
  match Result with
  | BuildDone Unit =>
      handlePrimaryAST (fun _ _ _ => None) Lang C Unit (S built)
  | BuildCancelled => Some [EvReceiver cancelledInfo]
  | BuildFailed _ => Some [EvReceiver emptyCursorInfo]
  end.


(** ** Concrete documents used to exercise the statements *)

Module Examples.

(** "let x = 1" becomes "let xy = 1". *)
Definition insertY : ReplaceImmutableTextUpdate := mkReplace 5 0 "y".
(** Removing the "x" of "let x = 1". *)
Definition removeX : ReplaceImmutableTextUpdate := mkReplace 4 1 "".

Definition oldSnap : ImmutableTextSnapshot := mkSnapshot 1 1 "let x = 1".
Definition newSnap : ImmutableTextSnapshot := mkSnapshot 1 2 "let xy = 1".
Definition otherSnap : ImmutableTextSnapshot := mkSnapshot 2 7 "import A".

(** A lexer small enough to run: the token at an offset is the run of
    bytes up to the next blank. *)
Fixpoint takeWord (Text : string) : string :=
  match Text with
  | EmptyString => EmptyString
  | String c rest =>
      if Ascii.eqb c " "%char then EmptyString else String c (takeWord rest)
  end.

Definition wordAt (Text : string) (Offset : Z) : string :=
  takeWord (dropBytes (Z.to_nat Offset) Text).

Definition insertedY : Collaborators :=
  {| replacesBetween := fun _ _ => [insertY];
     tokenTextAt := wordAt |}.

Definition removedX : Collaborators :=
  {| replacesBetween := fun _ _ => [removeX];
     tokenTextAt := wordAt |}.

Definition lang : SwiftLangSupport :=
  mkLang (fun _ => Some newSnap) (fun _ => None) "source.lang.swift.ref.module".

(** No document is open. *)
Definition closedLang : SwiftLangSupport :=
  mkLang (fun _ => None) (fun _ => None) "source.lang.swift.ref.module".

Definition plainDecl (Id : nat) (K : DeclKind) (Operator Unavailable : bool)
    (Local : option (list SourceEntity)) (Loc : option (Z * Z)) : ValueDecl :=
  {| declId := Id; declKind := K; nameIsOperator := Operator;
     isUnavailable := Unavailable; localContext := Local;
     declLoc := Loc; declFilename := "a.swift";
     printedKind := fun IsRef => (if IsRef then "ref" else "decl")%string;
     printedName := "x"; printedUSR := "s:x"; printedTypeName := "Int";
     printedDocComment := ""; printedDeclaration := "";
     printedFullDeclaration := ""; printedGroupName := "";
     printedOverrideUSRs := []; printedRelatedDecls := [];
     owningModuleName := ""; inSystemModule := false;
     printedTypeInterface := "" |}.

Definition deprecatedDecl : ValueDecl :=
  plainDecl 1 FuncDecl false true None None.
(** The "x" of "let x = 1". *)
Definition locatedDecl : ValueDecl :=
  plainDecl 2 VarDecl false false None (Some (4, 1)).
Definition initDecl : ValueDecl :=
  plainDecl 3 ConstructorDecl false false None None.
Definition plusDecl : ValueDecl :=
  plainDecl 4 FuncDecl true false None None.
Definition localSites : list SourceEntity :=
  [DeclSite 5 (4, 1); ReferenceSite 6 (9, 1) None; ReferenceSite 5 (12, 1) None].
Definition localDecl : ValueDecl :=
  plainDecl 5 VarDecl false false (Some localSites) None.
Definition fileSites : list SourceEntity :=
  [ReferenceSite 9 (0, 3) (Some 2%nat); DeclSite 2 (4, 1); DeclSite 7 (20, 2);
   ReferenceSite 2 (30, 1) None].

Definition tokenOf (VD : ValueDecl) (IsRef KeywordArgument : bool)
    : SemaToken :=
  {| ValueD := Some VD; CtorTyRef := None; Mod := None;
     IsRef := IsRef; IsKeywordArgument := KeywordArgument |}.

Definition unitOf (Snaps : list ImmutableTextSnapshot) (Tok : SemaToken)
    : ASTUnit :=
  {| getSnapshots := Snaps;
     getLocForStartOfToken := fun O => Some O;
     resolve := fun _ => Tok;
     primarySourceFile := fileSites |}.

(** An AST built from the older snapshot is at hand, and a build yields
    one of the newer snapshot; both resolve to the deprecated
    declaration. *)
Definition staleManager : SwiftASTManager :=
  {| getExistingAST := Some (unitOf [oldSnap] (tokenOf deprecatedDecl true false));
     buildOutcome := fun _ =>
       BuildDone (unitOf [newSnap] (tokenOf deprecatedDecl true false)) |}.

(** No AST is at hand. *)
Definition emptyManager : SwiftASTManager :=
  {| getExistingAST := None;
     buildOutcome := fun _ =>
       BuildDone (unitOf [newSnap] (tokenOf deprecatedDecl true false)) |}.

End Examples.

(** * Further code of the two files *)

(** ** Sizes along a chain of edit records *)

(** The size of the text once every record of the chain has been
    applied to a text of [Size] bytes. *)
Fixpoint sizeAfter (Size : Z) (Updates : list ReplaceImmutableTextUpdate)
    : Z :=
  match Updates with
  | [] => Size
  | Upd :: rest => sizeAfter (Size - getLength Upd + textSize Upd) rest
  end.

(** ** Counting what a query did *)

Definition isReceiverCall (E : Event) : bool :=
  match E with EvReceiver _ => true | _ => false end.
Definition isBuildRequest (E : Event) : bool :=
  match E with EvBuildAST => true | _ => false end.
Definition isPipelineRun (E : Event) : bool :=
  match E with EvResolveCursor _ _ => true | _ => false end.
Definition usesManager (E : Event) : bool :=
  match E with EvReceiver _ => false | _ => true end.

Definition countOf (p : Event -> bool) (Trace : list Event) : nat :=
  List.length (filter p Trace).

(** ** [walkRelatedDecls]

    [UnqualifiedLookup] and the attribute query belong to the compiler;
    [Results] is [Lookup.Results] in order, [FullName] is [getFullName]
    and [AttrsUnavailable] is [getAttrs().isUnavailable(Ctx)].
    [NamesSeen] is the [SmallDenseMap] from names to [unsigned], whose
    [operator[]] starts an absent name at zero. *)

Definition bumpName (NamesSeen : string -> Z) (N : string) : string -> Z :=
  fun K => if String.eqb K N then wrap32 (NamesSeen K + 1) else NamesSeen K.

(** The first loop, over [Lookup.Results]. *)
Fixpoint lookupRelated (FullName : ValueDecl -> string)
    (AttrsUnavailable : ValueDecl -> bool) (VD : ValueDecl)
    (Results : list ValueDecl) (NamesSeen : string -> Z)
    (RelatedDecls : list ValueDecl)
    : (string -> Z) * list ValueDecl :=
  match Results with
  | [] => (NamesSeen, RelatedDecls)
  | RelatedVD :: rest =>
      if AttrsUnavailable RelatedVD
      then lookupRelated FullName AttrsUnavailable VD rest NamesSeen
             RelatedDecls
      else if negb (Nat.eqb (declId RelatedVD) (declId VD))
      then lookupRelated FullName AttrsUnavailable VD rest
             (bumpName NamesSeen (FullName RelatedVD))
             (RelatedDecls ++ [RelatedVD])
      else lookupRelated FullName AttrsUnavailable VD rest NamesSeen
             RelatedDecls
  end.

(** The calls made to [Fn], in order: the related declaration and
    whether its name is a duplicate. *)
Definition walkRelatedDecls (FullName : ValueDecl -> string)
    (AttrsUnavailable : ValueDecl -> bool) (VD : ValueDecl)
    (Results : list ValueDecl) : list (ValueDecl * bool) :=
  let '(NamesSeen, RelatedDecls) :=
    lookupRelated FullName AttrsUnavailable VD Results
      (bumpName (fun _ => 0) (FullName VD)) [] in
  map (fun RelatedVD => (RelatedVD, 1 <? NamesSeen (FullName RelatedVD)))
    RelatedDecls.

(** How many declarations of a list carry a name. *)
Definition namedLike (FullName : ValueDecl -> string) (N : string)
    (Decls : list ValueDecl) : Z :=
  Z.of_nat (List.length
              (filter (fun D => String.eqb (FullName D) N) Decls)).

(** The declarations the first loop keeps. *)
Definition isRelated (AttrsUnavailable : ValueDecl -> bool) (VD : ValueDecl)
    (RelatedVD : ValueDecl) : bool :=
  negb (AttrsUnavailable RelatedVD)
  && negb (Nat.eqb (declId RelatedVD) (declId VD)).

(** ** [printAnnotatedDeclaration] and [printFullyAnnotatedDeclaration]

    Both begin with the same loop, [while (VD->isImplicit() &&
    VD->getOverriddenDecl()) VD = VD->getOverriddenDecl();].
    [IsImplicit] is [isImplicit], and [Overridden] lists what
    [getOverriddenDecl] returns along the chain above the declaration,
    nearest first; past its end [getOverriddenDecl] is null. *)
Fixpoint declToPrint (IsImplicit : ValueDecl -> bool) (VD : ValueDecl)
    (Overridden : list ValueDecl) : ValueDecl :=
  match Overridden with
  | [] => VD
  | Up :: rest =>
      if IsImplicit VD then declToPrint IsImplicit Up rest else VD
  end.

(** ** [SwiftLangSupport::getCursorInfo] *)

(** [SwiftInterfaceGenContext::ResolvedEntity], with null pointers as
    [None]. *)
Record ResolvedEntity : Type := mkResolvedEntity
  { entityDcl : option ValueDecl;
    entityMod : option ModuleEntity;
    entityIsRef : bool }.

(** [ResolvedEntity::isResolved] is declared in SwiftInterfaceGenContext.h,
    which is not part of the sources at hand; as for a [SemaToken], an
    entity is resolved when it names a declaration or a module. *)
Definition isResolved (Entity : ResolvedEntity) : bool :=
  match entityDcl Entity, entityMod Entity with
  | None, None => false
  | _, _ => true
  end.

(** [IFaceGenRef] is what [IFaceGenContexts.get(InputFile)] returns, held
    as its [resolveEntityForOffset]; [InvokOk] tells whether
    [getInvocation] returned an invocation; [built] counts the builds
    the manager was asked for before. *)
Definition getCursorInfo `{Ext : Collaborators} (fuel : nat)
    (Mgr : SwiftASTManager) (Lang : SwiftLangSupport)
    (IFaceGenRef : option (Z -> ResolvedEntity)) (InvokOk : bool)
    (InputFile : string) (Offset : Z) (built : nat)
    : option (list Event) :=
  match IFaceGenRef with
  | Some resolveEntityForOffset =>
      let Entity := resolveEntityForOffset Offset in
      if isResolved Entity then
        match entityMod Entity with
        | Some M => Some (snd (passCursorInfoForModule M Lang))
        | None =>
            match entityDcl Entity with
            | Some Dcl =>
                Some (snd (passCursorInfoForDecl Dcl (entityIsRef Entity)
                             Lang []))
            | None => Some [] (* not reached: the entity is resolved *)
            end
        end
      else Some [EvReceiver emptyCursorInfo]
  | None =>
      if InvokOk
      then resolveCursor fuel Mgr Lang InputFile Offset true built
      else Some [EvReceiver emptyCursorInfo]
  end.

(** ** [GenericSpecializer::specializeAppliesInFunction] *)

(** What the loop asks of an instruction: [ApplySite::isa], then
    [hasSubstitutions], then [getReferencedFunction] ([None] for a null
    callee) with the callee's [isDefinition]. *)
Record SILInstruction : Type := mkInstruction
  { instrId : nat;
    isApplySite : bool;
    hasSubstitutions : bool;
    referencedFunction : option (nat * bool) }.

(** What the pass does to its surroundings. *)
Inductive PassEvent : Type :=
  | NotifyPassManager (NewF : nat)
  | DeleteDeadInstruction (AI : nat).

Section Specializer.

(** [trySpecializeApplyOfGeneric] belongs to the optimizer utilities: run
    on an apply in a state [St] of the module, it leaves a state, the
    instructions it appends to [DeadApplies] and the functions it puts
    in [NewFunctions].  The iterator is advanced before the call, so the
    loop goes on with the instruction that followed the apply. *)
Variable St : Type.
Variable trySpecializeApplyOfGeneric :
  St -> SILInstruction -> St * list nat * list nat.

(** The body of the inner loop for one instruction. *)
Definition visitInstruction (Inst : SILInstruction)
    (Acc : St * list nat * list PassEvent) : St * list nat * list PassEvent :=
  let '(M, DeadApplies, Log) := Acc in
  if negb (isApplySite Inst) || negb (hasSubstitutions Inst) then Acc
  else
    match referencedFunction Inst with
    | None => Acc
    | Some (Callee, IsDefinition) =>
        if negb IsDefinition then Acc
        else
          let '(M', Dead, NewFunctions) :=
            trySpecializeApplyOfGeneric M Inst in
          (M', DeadApplies ++ Dead,
           Log ++ map NotifyPassManager (rev NewFunctions))
    end.

Fixpoint visitBlock (BB : list SILInstruction)
    (Acc : St * list nat * list PassEvent) : St * list nat * list PassEvent :=
  match BB with
  | [] => Acc
  | Inst :: rest => visitBlock rest (visitInstruction Inst Acc)
  end.

Fixpoint visitFunction (F : list (list SILInstruction))
    (Acc : St * list nat * list PassEvent) : St * list nat * list PassEvent :=
  match F with
  | [] => Acc
  | BB :: rest => visitFunction rest (visitBlock BB Acc)
  end.

(** The [while] loop that empties [DeadApplies] from its back. *)
Fixpoint removeDeadApplies (fromBack : list nat) (Log : list PassEvent)
    (Changed : bool) : list PassEvent * bool :=
  match fromBack with
  | [] => (Log, Changed)
  | AI :: rest =>
      removeDeadApplies rest (Log ++ [DeleteDeadInstruction AI]) true
  end.

(** Returns the state of the module, what was done, and [Changed]. *)
Definition specializeAppliesInFunction (M : St)
    (F : list (list SILInstruction)) : St * list PassEvent * bool :=
  let '(M', DeadApplies, Log) := visitFunction F (M, [], []) in
  let '(Log', Changed) := removeDeadApplies (rev DeadApplies) Log false in
  (M', Log', Changed).

(** The instructions the loop hands to the specializer. *)
Definition isSpecializable (Inst : SILInstruction) : bool :=
  isApplySite Inst && hasSubstitutions Inst
  && match referencedFunction Inst with
     | Some (_, IsDefinition) => IsDefinition
     | None => false
     end.

End Specializer.

Module MoreExamples.

Definition overloadA : ValueDecl :=
  Examples.plainDecl 11 FuncDecl false false None None.
Definition overloadB : ValueDecl :=
  Examples.plainDecl 12 FuncDecl false false None None.
Definition otherName : ValueDecl :=
  Examples.plainDecl 13 VarDecl false false None None.

(** Declarations 11 and 12 are overloads of one name. *)
Definition fullNameOf (D : ValueDecl) : string :=
  if Nat.eqb (declId D) 13 then "bar" else "foo(x:)".

Definition noneUnavailable (D : ValueDecl) : bool := false.

Definition deprecatedEntity : ResolvedEntity :=
  {| entityDcl := Some Examples.deprecatedDecl; entityMod := None;
     entityIsRef := true |}.

Definition locatedEntity : ResolvedEntity :=
  {| entityDcl := Some Examples.locatedDecl; entityMod := None;
     entityIsRef := true |}.

(** An apply of a generic function whose body is at hand, a call of a
    function without substitutions, and an instruction that is no
    apply. *)
Definition genericApply : SILInstruction := mkInstruction 1 true true (Some (7%nat, true)).
Definition plainApply : SILInstruction := mkInstruction 2 true false (Some (8%nat, true)).
Definition notAnApply : SILInstruction := mkInstruction 3 false false None.

(** A specializer that replaces every apply it is given and creates one
    function for it. *)
Definition alwaysSpecializes (M : nat) (Inst : SILInstruction)
    : nat * list nat * list nat :=
  (S M, [instrId Inst], [(100 + instrId Inst)%nat]).

(** "let x = 1" once its "x" is removed, as the latest snapshot. *)
Definition shrunkSnap : ImmutableTextSnapshot := mkSnapshot 1 3 "let  = 1".
Definition shrunkLang : SwiftLangSupport :=
  mkLang (fun _ => Some shrunkSnap) (fun _ => None)
    "source.lang.swift.ref.module".

(** An AST of the older snapshot is at hand and resolves to the "x" that
    the edit removes; the build fails. *)
Definition locatedManager : SwiftASTManager :=
  {| getExistingAST :=
       Some (Examples.unitOf [Examples.oldSnap]
               (Examples.tokenOf Examples.locatedDecl true false));
     buildOutcome := fun _ => BuildFailed "no build" |}.

(** An AST of the older snapshot that has no token anywhere. *)
Definition blindUnit : ASTUnit :=
  {| getSnapshots := [Examples.oldSnap];
     getLocForStartOfToken := fun _ => None;
     resolve := fun _ => Examples.tokenOf Examples.locatedDecl true false;
     primarySourceFile := [] |}.

Definition blindManager : SwiftASTManager :=
  {| getExistingAST := Some blindUnit;
     buildOutcome := fun _ => BuildFailed "no build" |}.

(** No AST is at hand and the build is cancelled. *)
Definition cancellingManager : SwiftASTManager :=
  {| getExistingAST := None; buildOutcome := fun _ => BuildCancelled |}.

(** Declaration 21 is implicit and overrides the explicit 22, which
    overrides 23. *)
Definition implicitOverride : ValueDecl :=
  Examples.plainDecl 21 FuncDecl false false None None.
Definition explicitBase : ValueDecl :=
  Examples.plainDecl 22 FuncDecl false false None None.
Definition rootDecl : ValueDecl :=
  Examples.plainDecl 23 FuncDecl false false None None.
Definition implicitOnly21 (D : ValueDecl) : bool := Nat.eqb (declId D) 21.

End MoreExamples.

(** * Properties of the offset remappers *)

Section RemapFacts.

Lemma wrap32_small (z : Z) : 0 <= z < 2 ^ 32 -> wrap32 z = z.
Proof. intro H. unfold wrap32. apply Z.mod_small. exact H. Qed.

Lemma wrap64_small (z : Z) : 0 <= z < 2 ^ 64 -> wrap64 z = z.
Proof. intro H. unfold wrap64. apply Z.mod_small. exact H. Qed.

Lemma wrap32_wrap64 (z : Z) : wrap32 (wrap64 z) = wrap32 z.
Proof.
  unfold wrap32, wrap64. apply Z.mod_mod_divide.
  exists (2 ^ 32). reflexivity.
Qed.

Lemma wrap32_minus_l (a b : Z) : wrap32 (wrap32 a - b) = wrap32 (a - b).
Proof. unfold wrap32. apply Zminus_mod_idemp_l. Qed.

Lemma textSize_nonneg (Upd : ReplaceImmutableTextUpdate) : 0 <= textSize Upd.
Proof. unfold textSize. lia. Qed.

(** The forward callback adds then subtracts; what is stored is the
    difference reduced once. *)
Lemma newer_adjust (O : Z) (Upd : ReplaceImmutableTextUpdate) :
  wrap32 (wrap32 (wrap64 (O + textSize Upd)) - getLength Upd)
  = wrap32 (O + textSize Upd - getLength Upd).
Proof. rewrite wrap32_wrap64. apply wrap32_minus_l. Qed.

Lemma older_adjust (O : Z) (Upd : ReplaceImmutableTextUpdate) :
  wrap32 (wrap64 (wrap32 (O + getLength Upd) - textSize Upd))
  = wrap32 (O + getLength Upd - textSize Upd).
Proof. rewrite wrap32_wrap64. apply wrap32_minus_l. Qed.

(** Unfolding equations of the two remappers. *)
Lemma mapNewer_nil (O : Z) : mapOffsetToNewerSnapshot O [] = Some O.
Proof. reflexivity. Qed.

Lemma mapNewer_cons (O : Z) (Upd : ReplaceImmutableTextUpdate)
    (rest : list ReplaceImmutableTextUpdate) :
  mapOffsetToNewerSnapshot O (Upd :: rest)
  = if snd (newerCallback O Upd)
    then mapOffsetToNewerSnapshot (fst (newerCallback O Upd)) rest
    else None.
Proof.
  unfold mapOffsetToNewerSnapshot. simpl.
  destruct (newerCallback O Upd) as [O' go]. simpl.
  destruct go; reflexivity.
Qed.

Lemma mapNewer_app (O : Z) (Before After : list ReplaceImmutableTextUpdate) :
  mapOffsetToNewerSnapshot O (Before ++ After)
  = match mapOffsetToNewerSnapshot O Before with
    | Some Cur => mapOffsetToNewerSnapshot Cur After
    | None => None
    end.
Proof.
  revert O. induction Before as [|Upd Before IH]; intro O.
  - reflexivity.
  - simpl app. rewrite !mapNewer_cons.
    destruct (snd (newerCallback O Upd)); [apply IH | reflexivity].
Qed.

Lemma collect_all (Updates Acc : list ReplaceImmutableTextUpdate) :
  foreachReplaceUntil Updates collectCallback Acc = (Acc ++ Updates, true).
Proof.
  revert Acc. induction Updates as [|Upd rest IH]; intro Acc; simpl.
  - now rewrite app_nil_r.
  - rewrite IH. now rewrite <- app_assoc.
Qed.

Lemma mapOlder_undoLoop (O : Z) (Updates : list ReplaceImmutableTextUpdate) :
  mapOffsetToOlderSnapshot O Updates = undoLoop O (rev Updates).
Proof. unfold mapOffsetToOlderSnapshot. now rewrite collect_all. Qed.

Lemma undoLoop_app (O : Z) (First Then : list ReplaceImmutableTextUpdate) :
  undoLoop O (First ++ Then)
  = match undoLoop O First with
    | Some Cur => undoLoop Cur Then
    | None => None
    end.
Proof.
  revert O. induction First as [|Upd First IH]; intro O; simpl.
  - reflexivity.
  - destruct (undoUpdate O Upd); [apply IH | reflexivity].
Qed.

(** Backward remap over a chain: the records after [Upd] are undone
    first, then [Upd], then the records before it. *)
Lemma mapOlder_split (O : Z) (Before After : list ReplaceImmutableTextUpdate)
    (Upd : ReplaceImmutableTextUpdate) :
  mapOffsetToOlderSnapshot O (Before ++ Upd :: After)
  = match mapOffsetToOlderSnapshot O After with
    | Some Cur =>
        match undoUpdate Cur Upd with
        | Some Cur' => mapOffsetToOlderSnapshot Cur' Before
        | None => None
        end
    | None => None
    end.
Proof.
  rewrite !mapOlder_undoLoop, rev_app_distr. simpl rev.
  rewrite <- app_assoc, undoLoop_app. simpl app.
  destruct (undoLoop O (rev After)) as [Cur|]; [|reflexivity].
  simpl. destruct (undoUpdate Cur Upd) as [Cur'|]; [|reflexivity].
  now rewrite mapOlder_undoLoop.
Qed.

End RemapFacts.

Section ValidChains.

Lemma validChain_size (Size : Z) (Updates : list ReplaceImmutableTextUpdate) :
  validChain Size Updates = true -> Size < 2 ^ 32.
Proof.
  destruct Updates as [|Upd rest]; simpl; intro H.
  - now apply Z.ltb_lt.
  - rewrite !andb_true_iff, Z.ltb_lt in H. tauto.
Qed.

Lemma validChain_cons (Size : Z) (Upd : ReplaceImmutableTextUpdate)
    (rest : list ReplaceImmutableTextUpdate) :
  validChain Size (Upd :: rest) = true ->
  fitsSnapshot Size Upd
  /\ validChain (Size - getLength Upd + textSize Upd) rest = true.
Proof.
  simpl. rewrite !andb_true_iff, Z.ltb_lt, !Z.leb_le.
  intros [[[[HS Hb] Hl] Hin] Hrest].
  assert (Hn := validChain_size _ _ Hrest).
  unfold fitsSnapshot. repeat split; assumption.
Qed.

Lemma validChain_app (Size : Z) (Before After : list ReplaceImmutableTextUpdate) :
  validChain Size (Before ++ After) = true ->
  exists Size', validChain Size' After = true.
Proof.
  revert Size. induction Before as [|Upd Before IH]; intros Size H.
  - now exists Size.
  - simpl app in H. apply validChain_cons in H. destruct H as [_ H].
    eapply IH; eassumption.
Qed.

(** On a record that fits, the [unsigned] sum of the forward test does
    not wrap. *)
Lemma newerCallback_stops (Size O : Z) (Upd : ReplaceImmutableTextUpdate) :
  fitsSnapshot Size Upd ->
  snd (newerCallback O Upd) = negb (insideRemovedSpan O Upd).
Proof.
  intros (HS & Hb & Hl & Hin & Hout).
  unfold newerCallback, insideRemovedSpan.
  rewrite (wrap32_small (getByteOffset Upd + getLength Upd)) by lia.
  destruct ((getByteOffset Upd <=? O)
            && (O <? getByteOffset Upd + getLength Upd)); simpl.
  - reflexivity.
  - destruct (getByteOffset Upd <=? O); reflexivity.
Qed.

(** On a record that fits and an offset of the snapshot it applies to,
    the forward callback moves the offset as the specification says, and
    the result is an offset of the next snapshot. *)
Lemma newerCallback_shift (Size O : Z) (Upd : ReplaceImmutableTextUpdate) :
  fitsSnapshot Size Upd -> 0 <= O <= Size ->
  insideRemovedSpan O Upd = false ->
  fst (newerCallback O Upd) = shiftedBy O Upd
  /\ 0 <= shiftedBy O Upd <= Size - getLength Upd + textSize Upd.
Proof.
  intros (HS & Hb & Hl & Hin & Hout) HO Hns.
  assert (Ht := textSize_nonneg Upd).
  unfold newerCallback, shiftedBy, entirelyAtOrBefore.
  unfold insideRemovedSpan in Hns.
  rewrite (wrap32_small (getByteOffset Upd + getLength Upd)) by lia.
  rewrite Hns.
  destruct (getByteOffset Upd <=? O) eqn:Hle; simpl in *.
  - apply Z.leb_le in Hle. apply Z.ltb_ge in Hns.
    replace (getByteOffset Upd + getLength Upd <=? O) with true
      by (symmetry; apply Z.leb_le; lia).
    rewrite newer_adjust. rewrite wrap32_small by lia. lia.
  - apply Z.leb_gt in Hle.
    replace (getByteOffset Upd + getLength Upd <=? O) with false
      by (symmetry; apply Z.leb_gt; lia).
    simpl. lia.
Qed.

(** Undoing a record brings a shifted offset back. *)
Lemma undoUpdate_shiftedBy (Size O : Z) (Upd : ReplaceImmutableTextUpdate) :
  fitsSnapshot Size Upd -> 0 <= O <= Size ->
  insideRemovedSpan O Upd = false ->
  undoUpdate (shiftedBy O Upd) Upd = Some O.
Proof.
  intros (HS & Hb & Hl & Hin & Hout) HO Hns.
  assert (Ht := textSize_nonneg Upd).
  unfold undoUpdate, shiftedBy, entirelyAtOrBefore.
  unfold insideRemovedSpan in Hns.
  rewrite (wrap64_small (getByteOffset Upd + textSize Upd))
    by (change (2 ^ 64) with 18446744073709551616;
        change (2 ^ 32) with 4294967296 in *; lia).
  destruct (getByteOffset Upd + getLength Upd <=? O) eqn:Hat.
  - apply Z.leb_le in Hat.
    replace (getByteOffset Upd <=? O + textSize Upd - getLength Upd)
      with true by (symmetry; apply Z.leb_le; lia).
    replace (O + textSize Upd - getLength Upd
             <? getByteOffset Upd + textSize Upd)
      with false by (symmetry; apply Z.ltb_ge; lia).
    simpl. rewrite older_adjust. f_equal.
    replace (O + textSize Upd - getLength Upd + getLength Upd - textSize Upd)
      with O by lia.
    apply wrap32_small. lia.
  - apply Z.leb_gt in Hat.
    destruct (getByteOffset Upd <=? O) eqn:Hle; simpl in Hns.
    + apply Z.leb_le in Hle. apply Z.ltb_ge in Hns. lia.
    + reflexivity.
Qed.

Lemma forwardRemapSpec_cons (O : Z) (Upd : ReplaceImmutableTextUpdate)
    (rest : list ReplaceImmutableTextUpdate) :
  forwardRemapSpec O (Upd :: rest)
  = if insideRemovedSpan O Upd then None
    else forwardRemapSpec (shiftedBy O Upd) rest.
Proof.
  simpl. unfold shiftedBy.
  destruct (insideRemovedSpan O Upd); [reflexivity|].
  destruct (entirelyAtOrBefore O Upd); reflexivity.
Qed.

Lemma mapNewer_refines (Updates : list ReplaceImmutableTextUpdate) :
  forall Size O, validChain Size Updates = true -> 0 <= O <= Size ->
  mapOffsetToNewerSnapshot O Updates = forwardRemapSpec O Updates.
Proof.
  induction Updates as [|Upd rest IH]; intros Size O Hv HO.
  - reflexivity.
  - apply validChain_cons in Hv. destruct Hv as [Hfit Hv].
    rewrite mapNewer_cons, forwardRemapSpec_cons.
    rewrite (newerCallback_stops Size O Upd Hfit).
    destruct (insideRemovedSpan O Upd) eqn:Hin; simpl; [reflexivity|].
    destruct (newerCallback_shift Size O Upd Hfit HO Hin) as [-> Hr].
    eapply IH; eassumption.
Qed.

(** A failure of the forward remap is a record whose removed span holds
    the offset as it stands when that record is replayed. *)
Lemma mapNewer_fails_at (Updates : list ReplaceImmutableTextUpdate) :
  forall Size O, validChain Size Updates = true ->
  mapOffsetToNewerSnapshot O Updates = None ->
  exists Before Upd After Cur,
    Updates = Before ++ Upd :: After
    /\ mapOffsetToNewerSnapshot O Before = Some Cur
    /\ getByteOffset Upd <= Cur < getByteOffset Upd + getLength Upd.
Proof.
  induction Updates as [|Upd rest IH]; intros Size O Hv Hnone.
  - discriminate.
  - apply validChain_cons in Hv. destruct Hv as [Hfit Hv].
    rewrite mapNewer_cons in Hnone.
    rewrite (newerCallback_stops Size O Upd Hfit) in Hnone.
    destruct (insideRemovedSpan O Upd) eqn:Hin; simpl in Hnone.
    + exists [], Upd, rest, O.
      unfold insideRemovedSpan in Hin. apply andb_prop in Hin.
      destruct Hin as [Hle Hlt].
      apply Z.leb_le in Hle. apply Z.ltb_lt in Hlt.
      repeat split; assumption.
    + destruct (IH _ _ Hv Hnone)
        as (Before & U & After & Cur & -> & Hcur & Hspan).
      exists (Upd :: Before), U, After, Cur. repeat split; try apply Hspan.
      rewrite mapNewer_cons.
      rewrite (newerCallback_stops Size O Upd Hfit), Hin. exact Hcur.
Qed.

Lemma mapNewer_fails_when_inside (Size O Cur : Z)
    (Before After : list ReplaceImmutableTextUpdate)
    (Upd : ReplaceImmutableTextUpdate) :
  validChain Size (Before ++ Upd :: After) = true ->
  mapOffsetToNewerSnapshot O Before = Some Cur ->
  getByteOffset Upd <= Cur < getByteOffset Upd + getLength Upd ->
  mapOffsetToNewerSnapshot O (Before ++ Upd :: After) = None.
Proof.
  intros Hv Hcur Hspan.
  apply validChain_app in Hv. destruct Hv as [Size' Hv].
  apply validChain_cons in Hv. destruct Hv as [Hfit _].
  rewrite mapNewer_app, Hcur, mapNewer_cons.
  rewrite (newerCallback_stops Size' Cur Upd Hfit).
  unfold insideRemovedSpan.
  replace (getByteOffset Upd <=? Cur) with true
    by (symmetry; apply Z.leb_le; lia).
  replace (Cur <? getByteOffset Upd + getLength Upd) with true
    by (symmetry; apply Z.ltb_lt; lia).
  reflexivity.
Qed.

End ValidChains.

(** * The claims about the offset remappers *)

(** C1, as the specification words it, fails on the code: an offset equal
    to the start of an edit record that removes text is reported as
    removed by the forward remap, and an offset equal to the start of an
    edit record that inserts text is reported as inserted by the backward
    remap.  Here the record removing the "x" of "let x = 1" is asked
    about offset 4, and the record inserting "y" at 5 about offset 5. *)
Lemma boundary_start_is_inside :
  getLength Examples.removeX <> 0
  /\ mapOffsetToNewerSnapshot (getByteOffset Examples.removeX)
       [Examples.removeX] = None
  /\ textSize Examples.insertY <> 0
  /\ mapOffsetToOlderSnapshot (getByteOffset Examples.insertY)
       [Examples.insertY] = None.
Proof.
  repeat split; try reflexivity; vm_compute; discriminate.
Qed.

(** C1 (amended): when the offset stands exactly at the start of an edit
    record as that record is replayed, the forward remap fails if the
    record removes any text and otherwise carries on behind the inserted
    text; when it stands there as the record is undone, the backward
    remap fails if the record inserted any text and otherwise carries on
    behind the text brought back.  The start of a span belongs to the
    span; only an empty span leaves the offset outside. *)
Theorem boundary_start_policy
    (O : Z) (Before After : list ReplaceImmutableTextUpdate)
    (Upd : ReplaceImmutableTextUpdate) :
  0 <= getByteOffset Upd -> 0 <= getLength Upd ->
  getByteOffset Upd + getLength Upd < 2 ^ 32 ->
  getByteOffset Upd + textSize Upd < 2 ^ 64 ->
  (mapOffsetToNewerSnapshot O Before = Some (getByteOffset Upd) ->
   (getLength Upd <> 0 ->
    mapOffsetToNewerSnapshot O (Before ++ Upd :: After) = None)
   /\ (getLength Upd = 0 ->
       mapOffsetToNewerSnapshot O (Before ++ Upd :: After)
       = mapOffsetToNewerSnapshot
           (wrap32 (getByteOffset Upd + textSize Upd)) After))
  /\ (mapOffsetToOlderSnapshot O After = Some (getByteOffset Upd) ->
      (textSize Upd <> 0 ->
       mapOffsetToOlderSnapshot O (Before ++ Upd :: After) = None)
      /\ (textSize Upd = 0 ->
          mapOffsetToOlderSnapshot O (Before ++ Upd :: After)
          = mapOffsetToOlderSnapshot
              (wrap32 (getByteOffset Upd + getLength Upd)) Before)).
Proof.
  intros Hb Hl H32 H64. assert (Ht := textSize_nonneg Upd). split.
  - intro Hcur. rewrite mapNewer_app, Hcur, mapNewer_cons.
    unfold newerCallback.
    rewrite (wrap32_small (getByteOffset Upd + getLength Upd)) by lia.
    rewrite Z.leb_refl. simpl. split; intro Hlen.
    + replace (getByteOffset Upd <? getByteOffset Upd + getLength Upd)
        with true by (symmetry; apply Z.ltb_lt; lia).
      reflexivity.
    + replace (getByteOffset Upd <? getByteOffset Upd + getLength Upd)
        with false by (symmetry; apply Z.ltb_ge; lia).
      simpl. rewrite newer_adjust, Hlen. f_equal. f_equal. lia.
  - intro Hcur. rewrite mapOlder_split, Hcur.
    unfold undoUpdate.
    rewrite (wrap64_small (getByteOffset Upd + textSize Upd)) by lia.
    rewrite Z.leb_refl. simpl. split; intro Hlen.
    + replace (getByteOffset Upd <? getByteOffset Upd + textSize Upd)
        with true by (symmetry; apply Z.ltb_lt; lia).
      reflexivity.
    + replace (getByteOffset Upd <? getByteOffset Upd + textSize Upd)
        with false by (symmetry; apply Z.ltb_ge; lia).
      rewrite older_adjust, Hlen. f_equal. f_equal. lia.
Qed.

Lemma boundary_start_policy_witness :
  mapOffsetToNewerSnapshot 5 [] = Some (getByteOffset Examples.insertY)
  /\ getLength Examples.insertY = 0
  /\ mapOffsetToNewerSnapshot 5 ([] ++ Examples.insertY :: []) = Some 6
  /\ mapOffsetToOlderSnapshot 5 [] = Some (getByteOffset Examples.insertY)
  /\ textSize Examples.insertY <> 0
  /\ mapOffsetToOlderSnapshot 5 ([] ++ Examples.insertY :: []) = None.
Proof.
  destruct (boundary_start_policy 5 [] [] Examples.insertY)
    as [Forward Backward]; try (vm_compute; first [reflexivity | discriminate]).
  split; [reflexivity|]. split; [reflexivity|]. split.
  { destruct (Forward eq_refl) as [_ Pure]. rewrite (Pure eq_refl).
    reflexivity. }
  split; [reflexivity|]. split.
  { vm_compute. discriminate. }
  destruct (Backward eq_refl) as [Grown _]. apply Grown.
  vm_compute. discriminate.
Defined.

(** C2, as the specification words it, fails on the code: for the edit
    record (5, 0, "y") that takes "let x = 1" to "let xy = 1", the forward
    remap of offset 5 does not yield 5, and the backward remap of offset
    6 does not fail. *)
Lemma scenario_one_as_worded_fails :
  applyReplace "let x = 1" Examples.insertY = "let xy = 1"%string
  /\ ~ (mapOffsetToNewerSnapshot 5 [Examples.insertY] = Some 5
        /\ mapOffsetToOlderSnapshot 7 [Examples.insertY] = Some 6
        /\ mapOffsetToOlderSnapshot 6 [Examples.insertY] = None).
Proof.
  split; [reflexivity|]. intros (Hfwd & _ & _).
  vm_compute in Hfwd. discriminate.
Qed.

(** C2 (amended): for the edit record (5, 0, "y") that takes "let x = 1"
    to "let xy = 1", the forward remap of offset 5 yields 6 (the blank
    that followed "x" now follows "y"), the backward remap of offset 7
    yields 6, the backward remap of offset 6 yields 5, and the backward
    remap of offset 5, the offset of the inserted "y", fails. *)
Theorem scenario_one :
  applyReplace "let x = 1" Examples.insertY = "let xy = 1"%string
  /\ mapOffsetToNewerSnapshot 5 [Examples.insertY] = Some 6
  /\ mapOffsetToOlderSnapshot 7 [Examples.insertY] = Some 6
  /\ mapOffsetToOlderSnapshot 6 [Examples.insertY] = Some 5
  /\ mapOffsetToOlderSnapshot 5 [Examples.insertY] = None.
Proof. repeat split. Qed.

(** C3: over a chain of edit records that applies to the older snapshot,
    the forward remap takes the records in chain order and fails exactly
    when some record's removed span holds the offset as it stands when
    that record is replayed; on an offset of the older snapshot it is the
    replay of section 4.2: the offset is moved by inserted length minus
    removed length at every record entirely at or before it, and the
    remap succeeds with the final offset. *)
Theorem forward_remap_replays_chain
    (Size O : Z) (Updates : list ReplaceImmutableTextUpdate) :
  validChain Size Updates = true ->
  (mapOffsetToNewerSnapshot O Updates = None <->
   exists Before Upd After Cur,
     Updates = Before ++ Upd :: After
     /\ mapOffsetToNewerSnapshot O Before = Some Cur
     /\ getByteOffset Upd <= Cur < getByteOffset Upd + getLength Upd)
  /\ (0 <= O <= Size ->
      mapOffsetToNewerSnapshot O Updates = forwardRemapSpec O Updates).
Proof.
  intros Hv. split; [split|].
  - eapply mapNewer_fails_at; eassumption.
  - intros (Before & Upd & After & Cur & -> & Hcur & Hspan).
    eapply mapNewer_fails_when_inside; eassumption.
  - intro HO. eapply mapNewer_refines; eassumption.
Qed.

Lemma forward_remap_replays_chain_witness :
  validChain 9 [Examples.removeX; Examples.insertY] = true
  /\ 0 <= 7 <= 9
  /\ mapOffsetToNewerSnapshot 7 [Examples.removeX; Examples.insertY]
     = forwardRemapSpec 7 [Examples.removeX; Examples.insertY]
  /\ forwardRemapSpec 7 [Examples.removeX; Examples.insertY] = Some 7
  /\ mapOffsetToNewerSnapshot 4 [Examples.removeX; Examples.insertY] = None.
Proof.
  split; [reflexivity|]. split; [lia|].
  destruct (forward_remap_replays_chain 9 7
              [Examples.removeX; Examples.insertY] eq_refl) as [_ Replay].
  destruct (forward_remap_replays_chain 9 4
              [Examples.removeX; Examples.insertY] eq_refl) as [[_ Fails] _].
  split; [apply Replay; lia|]. split; [reflexivity|].
  apply Fails. exists [], Examples.removeX, [Examples.insertY], 4.
  split; [reflexivity|]. split; [reflexivity|].
  split; [vm_compute; discriminate | reflexivity].
Defined.

(** C4: for a chain of edit records that applies to the older snapshot
    and an offset of that snapshot which no record removes (each record
    asked about the offset as it stands in the snapshot the record
    applies to), the forward remap succeeds, and the backward remap of
    its result succeeds and returns the offset. *)
Theorem remap_round_trip
    (Updates : list ReplaceImmutableTextUpdate) (Size O : Z) :
  validChain Size Updates = true -> 0 <= O <= Size ->
  outsideRemovedSpans O Updates = true ->
  exists Newer,
    mapOffsetToNewerSnapshot O Updates = Some Newer
    /\ mapOffsetToOlderSnapshot Newer Updates = Some O.
Proof.
  revert Size O. induction Updates as [|Upd rest IH]; intros Size O Hv HO Hout.
  - exists O. split; reflexivity.
  - apply validChain_cons in Hv. destruct Hv as [Hfit Hv].
    simpl in Hout. apply andb_prop in Hout. destruct Hout as [Hin Hout].
    apply negb_true_iff in Hin.
    destruct (newerCallback_shift Size O Upd Hfit HO Hin) as [Hfst Hr].
    destruct (IH _ _ Hv Hr Hout) as (Newer & Hfwd & Hback).
    exists Newer. split.
    + rewrite mapNewer_cons, (newerCallback_stops Size O Upd Hfit), Hin.
      simpl. now rewrite Hfst.
    + change (Upd :: rest) with ([] ++ Upd :: rest).
      rewrite mapOlder_split, Hback.
      now rewrite (undoUpdate_shiftedBy Size O Upd Hfit HO Hin).
Qed.

Lemma remap_round_trip_witness :
  validChain 9 [Examples.removeX; Examples.insertY] = true
  /\ 0 <= 7 <= 9
  /\ outsideRemovedSpans 7 [Examples.removeX; Examples.insertY] = true
  /\ exists Newer,
       mapOffsetToNewerSnapshot 7 [Examples.removeX; Examples.insertY]
       = Some Newer
       /\ mapOffsetToOlderSnapshot Newer [Examples.removeX; Examples.insertY]
          = Some 7.
Proof.
  split; [reflexivity|]. split; [lia|]. split; [reflexivity|].
  apply (remap_round_trip [Examples.removeX; Examples.insertY] 9 7);
    [reflexivity | lia | reflexivity].
Defined.

(** * Properties of the negotiation and of the pipeline *)

Section PipelineFacts.
Context `{Ext : Collaborators}.

Lemma candidate_remap (Latest Prev : ImmutableTextSnapshot) (Range : Z * Z)
    (Snaps : list ImmutableTextSnapshot) :
  candidateSnapshot Latest Snaps = Some Prev ->
  remapOverPreviousSnaps Latest Range Snaps
  = remapOverPreviousSnaps Latest Range [Prev]
  /\ isFromSameBuffer Prev Latest = true.
Proof.
  unfold candidateSnapshot.
  induction Snaps as [|S rest IH]; simpl; intro H; [discriminate|].
  destruct (isFromSameBuffer S Latest) eqn:Hsame.
  - injection H as <-. now rewrite Hsame.
  - destruct (IH H) as [-> Hp]. simpl. now rewrite Hp.
Qed.

Lemma no_candidate_remap (Latest : ImmutableTextSnapshot) (Range : Z * Z)
    (Snaps : list ImmutableTextSnapshot) :
  candidateSnapshot Latest Snaps = None ->
  remapOverPreviousSnaps Latest Range Snaps = Some Range.
Proof.
  unfold candidateSnapshot.
  induction Snaps as [|S rest IH]; simpl; intro H; [reflexivity|].
  destruct (isFromSameBuffer S Latest); [discriminate | auto].
Qed.

Lemma candidate_mappedBack (Latest Snap : ImmutableTextSnapshot) (O : Z)
    (Snapshots : list ImmutableTextSnapshot) :
  candidateSnapshot Latest Snapshots = Some Snap ->
  mappedBackOffset O Latest Snapshots = mappedBackOffset O Latest [Snap]
  /\ isFromSameBuffer Snap Latest = true.
Proof.
  unfold candidateSnapshot.
  induction Snapshots as [|S rest IH]; simpl; intro H; [discriminate|].
  destruct (isFromSameBuffer S Latest) eqn:Hsame.
  - injection H as <-. now rewrite Hsame.
  - destruct (IH H) as [-> Hp]. simpl. now rewrite Hp.
Qed.

(** A rejection leaves the consumer as it was. *)
Lemma canUse_rejects_unchanged (Lang : SwiftLangSupport)
    (C : CursorInfoConsumer) (Snapshots : list ImmutableTextSnapshot) :
  fst (canUseASTWithSnapshots Lang C Snapshots) = false ->
  canUseASTWithSnapshots Lang C Snapshots = (false, C).
Proof.
  unfold canUseASTWithSnapshots.
  destruct (negb (TryExistingAST C)); [reflexivity|].
  destruct (latestSnapshotOf Lang (InputFile C)) as [InputSnap|];
    [|reflexivity].
  destruct (mappedBackOffset (Offset C) InputSnap Snapshots);
    [discriminate | reflexivity].
Qed.

Lemma canUse_disabled (Lang : SwiftLangSupport) (C : CursorInfoConsumer)
    (Snapshots : list ImmutableTextSnapshot) :
  TryExistingAST C = false ->
  canUseASTWithSnapshots Lang C Snapshots = (false, C).
Proof. unfold canUseASTWithSnapshots. now intros ->. Qed.

(** An acceptance records the snapshots of the AST. *)
Lemma canUse_accepts_records (Lang : SwiftLangSupport)
    (C C' : CursorInfoConsumer) (Snapshots : list ImmutableTextSnapshot) :
  canUseASTWithSnapshots Lang C Snapshots = (true, C') ->
  InputFile C' = InputFile C
  /\ PreviousASTSnaps C' = PreviousASTSnaps C ++ Snapshots
  /\ exists Latest,
       latestSnapshotOf Lang (InputFile C) = Some Latest
       /\ mappedBackOffset (Offset C) Latest Snapshots = Some (Offset C').
Proof.
  unfold canUseASTWithSnapshots.
  destruct (negb (TryExistingAST C)); [discriminate|].
  destruct (latestSnapshotOf Lang (InputFile C)) as [InputSnap|];
    [|discriminate].
  destruct (mappedBackOffset (Offset C) InputSnap Snapshots) as [Old|] eqn:Hm;
    [|discriminate].
  intro H. injection H as <-. simpl. repeat split.
  exists InputSnap. now split.
Qed.

Lemma targetDecl_of_valid (Tok : SemaToken) :
  isInvalid Tok = false -> Mod Tok = None ->
  exists VD, targetDecl Tok = Some VD.
Proof.
  unfold isInvalid, targetDecl. intros Hv Hm. rewrite Hm in Hv.
  destruct (CtorTyRef Tok) as [T|]; [now exists T|].
  destruct (ValueD Tok) as [VD|]; [now exists VD | discriminate].
Qed.

Lemma passCursorInfoForDecl_calls (VD : ValueDecl) (IsRef : bool)
    (Lang : SwiftLangSupport) (Snaps : list ImmutableTextSnapshot) :
  (fst (passCursorInfoForDecl VD IsRef Lang Snaps) = true
   /\ snd (passCursorInfoForDecl VD IsRef Lang Snaps) = [])
  \/ (fst (passCursorInfoForDecl VD IsRef Lang Snaps) = false
      /\ exists Info,
           snd (passCursorInfoForDecl VD IsRef Lang Snaps)
           = [EvReceiver Info]).
Proof.
  unfold passCursorInfoForDecl.
  destruct (isUnavailable VD); [now left|].
  destruct (declLoc VD) as [Range|].
  - destruct (tryRemappingLocToLatestSnapshot Lang Range (declFilename VD)
                Snaps); [right | now left].
    split; [reflexivity | eexists; reflexivity].
  - right. split; [reflexivity | eexists; reflexivity].
Qed.

(** With no snapshot recorded by an acceptance, [handlePrimaryAST] calls
    [Receiver] once and does not call [resolveCursor]. *)
Lemma handlePrimaryAST_without_previous (Lang : SwiftLangSupport)
    (C : CursorInfoConsumer) (Unit : ASTUnit) (built : nat) :
  PreviousASTSnaps C = [] ->
  exists Info, forall Again,
    handlePrimaryAST Again Lang C Unit built = Some [EvReceiver Info].
Proof.
  intro Hprev. unfold handlePrimaryAST.
  destruct (getLocForStartOfToken Unit (Offset C)) as [Loc|];
    [|eexists; reflexivity].
  destruct (isInvalid (resolve Unit Loc)) eqn:Hv; [eexists; reflexivity|].
  destruct (Mod (resolve Unit Loc)) as [M|] eqn:Hm; [eexists; reflexivity|].
  destruct (targetDecl_of_valid _ Hv Hm) as [VD ->].
  rewrite Hprev.
  destruct (passCursorInfoForDecl_calls VD (IsRef (resolve Unit Loc)) Lang [])
    as [[Hf Hc] | [Hf [Info Hc]]];
    destruct (passCursorInfoForDecl VD (IsRef (resolve Unit Loc)) Lang [])
      as [Failed Calls]; simpl in Hf, Hc; subst Failed Calls.
  - exists emptyCursorInfo. reflexivity.
  - exists Info. reflexivity.
Qed.

(** The shape of [handlePrimaryAST] on a declaration whose response
    cannot be assembled. *)
Lemma handlePrimaryAST_failed (Again : Z -> bool -> nat -> option (list Event))
    (Lang : SwiftLangSupport) (C : CursorInfoConsumer) (Unit : ASTUnit)
    (built : nat) (Loc : Z) (VD : ValueDecl) :
  getLocForStartOfToken Unit (Offset C) = Some Loc ->
  isInvalid (resolve Unit Loc) = false ->
  Mod (resolve Unit Loc) = None ->
  targetDecl (resolve Unit Loc) = Some VD ->
  fst (passCursorInfoForDecl VD (IsRef (resolve Unit Loc)) Lang
         (PreviousASTSnaps C)) = true ->
  handlePrimaryAST Again Lang C Unit built
  = match PreviousASTSnaps C with
    | _ :: _ => Again (Offset C) false built
    | [] => Some [EvReceiver emptyCursorInfo]
    end.
Proof.
  intros HLoc Hv Hm Ht Hf. unfold handlePrimaryAST.
  rewrite HLoc, Hv, Hm, Ht.
  destruct (passCursorInfoForDecl_calls VD (IsRef (resolve Unit Loc)) Lang
              (PreviousASTSnaps C)) as [[_ Hc] | [Hf' _]];
    [|congruence].
  destruct (passCursorInfoForDecl VD (IsRef (resolve Unit Loc)) Lang
              (PreviousASTSnaps C)) as [Failed Calls].
  simpl in Hf, Hc. subst Failed Calls.
  destruct (PreviousASTSnaps C); [reflexivity|].
  simpl. destruct (Again (Offset C) false built); reflexivity.
Qed.

(** A run that does not use an existing AST: one build, one call of
    [Receiver], no further run. *)
Lemma resolveCursor_fresh (fuel : nat) (Mgr : SwiftASTManager)
    (Lang : SwiftLangSupport) (File : string) (O : Z) (Try : bool)
    (built : nat) :
  (forall Unit, getExistingAST Mgr = Some Unit ->
     fst (canUseASTWithSnapshots Lang (mkConsumer File O Try [])
            (getSnapshots Unit)) = false) ->
  exists Info,
    freshOutcome Lang (mkConsumer File O Try []) (buildOutcome Mgr built) built
    = Some [EvReceiver Info]
    /\ resolveCursor (S fuel) Mgr Lang File O Try built
       = Some [EvResolveCursor O Try; EvBuildAST; EvReceiver Info].
Proof.
  intro Hrej. simpl.
  assert (Hbuild : exists Info,
    freshOutcome Lang (mkConsumer File O Try []) (buildOutcome Mgr built) built
    = Some [EvReceiver Info]
    /\ match buildOutcome Mgr built with
       | BuildDone Unit =>
           option_map (cons EvBuildAST)
             (handlePrimaryAST
                (fun Offset' Try' built' =>
                   resolveCursor fuel Mgr Lang File Offset' Try' built')
                Lang (mkConsumer File O Try []) Unit (S built))
       | BuildCancelled => Some [EvBuildAST; EvReceiver cancelledInfo]
       | BuildFailed _ => Some [EvBuildAST; EvReceiver emptyCursorInfo]
       end = Some [EvBuildAST; EvReceiver Info]).
  { unfold freshOutcome. destruct (buildOutcome Mgr built) as [Unit| |Err].
    - destruct (handlePrimaryAST_without_previous Lang
                  (mkConsumer File O Try []) Unit (S built) eq_refl)
        as [Info HInfo].
      exists Info. now rewrite !HInfo.
    - now exists cancelledInfo.
    - now exists emptyCursorInfo. }
  destruct Hbuild as (Info & Hfresh & Hb). exists Info. split; [exact Hfresh|].
  destruct (getExistingAST Mgr) as [Unit|].
  - rewrite (canUse_rejects_unchanged _ _ _ (Hrej Unit eq_refl)).
    now rewrite Hb.
  - now rewrite Hb.
Qed.

Lemma resolveCursor_no_reuse (fuel : nat) (Mgr : SwiftASTManager)
    (Lang : SwiftLangSupport) (File : string) (O : Z) (built : nat) :
  exists Info,
    freshOutcome Lang (mkConsumer File O false [])
      (buildOutcome Mgr built) built
    = Some [EvReceiver Info]
    /\ resolveCursor (S fuel) Mgr Lang File O false built
       = Some [EvResolveCursor O false; EvBuildAST; EvReceiver Info].
Proof.
  apply resolveCursor_fresh. intros Unit _.
  now rewrite canUse_disabled.
Qed.

(** A run whose consumer accepts the AST at hand. *)
Lemma resolveCursor_accepts (fuel : nat) (Mgr : SwiftASTManager)
    (Lang : SwiftLangSupport) (File : string) (O : Z) (Try : bool)
    (built : nat) (E : ASTUnit) (C' : CursorInfoConsumer) :
  getExistingAST Mgr = Some E ->
  canUseASTWithSnapshots Lang (mkConsumer File O Try []) (getSnapshots E)
  = (true, C') ->
  resolveCursor (S fuel) Mgr Lang File O Try built
  = option_map (fun Rest => EvResolveCursor O Try :: EvExistingAST :: Rest)
      (handlePrimaryAST (resolveCursor fuel Mgr Lang File) Lang C' E built).
Proof.
  intros HE Hacc. simpl. rewrite HE, Hacc.
  now destruct (handlePrimaryAST _ Lang C' E built).
Qed.

End PipelineFacts.

(** * The claims about the negotiation and the location remap *)

Section NegotiationClaims.
Context `{Ext : Collaborators}.

(** C5: when the candidate snapshot of an existing AST differs in stamp
    from the latest snapshot and the backward remap of the offset
    succeeds, but the token at the offset in the latest snapshot differs
    from the token at the remapped offset in the candidate, or either
    token is empty, [canUseASTWithSnapshots] answers no and leaves the
    consumer untouched; a query in that position requests a fresh build
    and answers from it. *)
Theorem identity_guard_rejects
    (Lang : SwiftLangSupport) (C : CursorInfoConsumer)
    (Snapshots : list ImmutableTextSnapshot)
    (InputSnap Snap : ImmutableTextSnapshot) (OldOffset : Z) :
  latestSnapshotOf Lang (InputFile C) = Some InputSnap ->
  candidateSnapshot InputSnap Snapshots = Some Snap ->
  getStamp Snap <> getStamp InputSnap ->
  mapOffsetToOlderSnapshot (Offset C) (replacesBetween Snap InputSnap)
  = Some OldOffset ->
  getSourceToken (Offset C) InputSnap <> getSourceToken OldOffset Snap
  \/ getSourceToken (Offset C) InputSnap = EmptyString
  \/ getSourceToken OldOffset Snap = EmptyString ->
  canUseASTWithSnapshots Lang C Snapshots = (false, C)
  /\ forall fuel Mgr Unit built,
       getExistingAST Mgr = Some Unit -> getSnapshots Unit = Snapshots ->
       PreviousASTSnaps C = [] ->
       exists Info,
         resolveCursor (S fuel) Mgr Lang (InputFile C) (Offset C)
           (TryExistingAST C) built
         = Some [EvResolveCursor (Offset C) (TryExistingAST C);
                 EvBuildAST; EvReceiver Info].
Proof.
  intros HLatest Hcand Hstamp Hmap Htok.
  assert (Hrej : canUseASTWithSnapshots Lang C Snapshots = (false, C)).
  { unfold canUseASTWithSnapshots.
    destruct (negb (TryExistingAST C)); [reflexivity|].
    rewrite HLatest.
    destruct (candidate_mappedBack InputSnap Snap (Offset C) Snapshots Hcand)
      as [-> Hsame].
    simpl. rewrite Hsame.
    replace (getStamp Snap =? getStamp InputSnap) with false
      by (symmetry; now apply Z.eqb_neq).
    rewrite Hmap.
    destruct (String.eqb_spec (getSourceToken (Offset C) InputSnap)
                EmptyString) as [Hempty|Hfull]; [reflexivity|].
    destruct (String.eqb_spec (getSourceToken (Offset C) InputSnap)
                (getSourceToken OldOffset Snap)) as [Heq|Hne];
      [|reflexivity].
    exfalso. destruct Htok as [H | [H | H]]; congruence. }
  split; [exact Hrej|].
  intros fuel Mgr Unit built HUnit HSnaps Hprev.
  destruct C as [File O Try Prev]. simpl in *. subst Prev.
  destruct (resolveCursor_fresh fuel Mgr Lang File O Try built)
    as (Info & _ & Hrun).
  - intros Unit' HUnit'. rewrite HUnit in HUnit'. injection HUnit' as <-.
    now rewrite HSnaps, Hrej.
  - now exists Info.
Qed.

(** C8: when the file of the declaration has a latest snapshot and the
    snapshots the AST was built from hold an earlier snapshot of that
    buffer, both ends of the declaration's range are remapped forward
    over the records between the two; if either remap fails,
    [passCursorInfoForDecl] reports failure without calling [Receiver],
    and if both succeed the response carries the remapped begin and the
    distance between the remapped ends. *)
Theorem location_remap_all_or_nothing
    (VD : ValueDecl) (IsRef : bool) (Lang : SwiftLangSupport)
    (Snaps : list ImmutableTextSnapshot) (Range : Z * Z)
    (Latest Prev : ImmutableTextSnapshot) :
  isUnavailable VD = false ->
  declLoc VD = Some Range ->
  latestSnapshotOf Lang (declFilename VD) = Some Latest ->
  candidateSnapshot Latest Snaps = Some Prev ->
  getStamp Prev <> getStamp Latest ->
  (mapOffsetToNewerSnapshot (fst Range) (replacesBetween Prev Latest) = None
   \/ mapOffsetToNewerSnapshot (wrap32 (fst Range + snd Range))
        (replacesBetween Prev Latest) = None ->
   passCursorInfoForDecl VD IsRef Lang Snaps = (true, []))
  /\ (forall Begin End,
        mapOffsetToNewerSnapshot (fst Range) (replacesBetween Prev Latest)
        = Some Begin ->
        mapOffsetToNewerSnapshot (wrap32 (fst Range + snd Range))
          (replacesBetween Prev Latest) = Some End ->
        passCursorInfoForDecl VD IsRef Lang Snaps
        = (false,
           [EvReceiver
              (declCursorInfo VD IsRef Lang
                 (Some (Begin, wrap32 (End - Begin))))])).
Proof.
  intros Hav Hloc HLatest Hcand Hstamp.
  unfold passCursorInfoForDecl, tryRemappingLocToLatestSnapshot.
  rewrite Hav, Hloc, HLatest.
  destruct (candidate_remap Latest Prev Range Snaps Hcand) as [-> Hsame].
  simpl. rewrite Hsame.
  replace (getStamp Prev =? getStamp Latest) with false
    by (symmetry; now apply Z.eqb_neq).
  split.
  - intros [Hb | He].
    + now rewrite Hb.
    + rewrite He.
      now destruct (mapOffsetToNewerSnapshot (fst Range)
                      (replacesBetween Prev Latest)).
  - intros Begin End Hb He. now rewrite Hb, He.
Qed.

(** C10: the location remap hands the range back unchanged when the file
    has no latest snapshot and when no snapshot of the AST is from the
    buffer of that latest snapshot; it fails only when the first
    snapshot from that buffer differs in stamp from the latest one and
    the forward remap of one end of the range fails. *)
Theorem location_remap_defaults_to_input
    (Lang : SwiftLangSupport) (Range : Z * Z) (Filename : string)
    (Snaps : list ImmutableTextSnapshot) :
  (latestSnapshotOf Lang Filename = None ->
   tryRemappingLocToLatestSnapshot Lang Range Filename Snaps = Some Range)
  /\ (forall Latest,
        latestSnapshotOf Lang Filename = Some Latest ->
        candidateSnapshot Latest Snaps = None ->
        tryRemappingLocToLatestSnapshot Lang Range Filename Snaps
        = Some Range)
  /\ (tryRemappingLocToLatestSnapshot Lang Range Filename Snaps = None ->
      exists Latest Prev,
        latestSnapshotOf Lang Filename = Some Latest
        /\ candidateSnapshot Latest Snaps = Some Prev
        /\ isFromSameBuffer Prev Latest = true
        /\ getStamp Prev <> getStamp Latest
        /\ (mapOffsetToNewerSnapshot (fst Range)
              (replacesBetween Prev Latest) = None
            \/ mapOffsetToNewerSnapshot (wrap32 (fst Range + snd Range))
                 (replacesBetween Prev Latest) = None)).
Proof.
  unfold tryRemappingLocToLatestSnapshot. split; [|split].
  - now intros ->.
  - intros Latest -> Hnone. now apply no_candidate_remap.
  - destruct (latestSnapshotOf Lang Filename) as [Latest|]; [|discriminate].
    destruct (candidateSnapshot Latest Snaps) as [Prev|] eqn:Hcand.
    + destruct (candidate_remap Latest Prev Range Snaps Hcand) as [-> Hsame].
      simpl. rewrite Hsame.
      destruct (getStamp Prev =? getStamp Latest) eqn:Hst; [discriminate|].
      apply Z.eqb_neq in Hst. intro Hfail.
      exists Latest, Prev. repeat split; try assumption.
      destruct (mapOffsetToNewerSnapshot (fst Range)
                  (replacesBetween Prev Latest)); [|now left].
      destruct (mapOffsetToNewerSnapshot (wrap32 (fst Range + snd Range))
                  (replacesBetween Prev Latest)); [discriminate | now right].
    + now rewrite no_candidate_remap.
Qed.

End NegotiationClaims.

Lemma identity_guard_rejects_witness :
  let C := mkConsumer "a.swift" 4 true [] in
  let Unit :=
    Examples.unitOf [Examples.otherSnap; Examples.oldSnap]
      (Examples.tokenOf Examples.locatedDecl true false) in
  let Mgr := mkASTManager (Some Unit) (fun _ => BuildDone Unit) in
  mapOffsetToOlderSnapshot 4 [Examples.insertY] = Some 4
  /\ getSourceToken (Ext := Examples.insertedY) 4 Examples.newSnap
     = "xy"%string
  /\ getSourceToken (Ext := Examples.insertedY) 4 Examples.oldSnap
     = "x"%string
  /\ canUseASTWithSnapshots (Ext := Examples.insertedY) Examples.lang C
       [Examples.otherSnap; Examples.oldSnap] = (false, C)
  /\ exists Info,
       resolveCursor (Ext := Examples.insertedY) 1 Mgr Examples.lang
         "a.swift" 4 true 0
       = Some [EvResolveCursor 4 true; EvBuildAST; EvReceiver Info].
Proof.
  intros C Unit Mgr.
  split; [reflexivity|]. split; [reflexivity|]. split; [reflexivity|].
  destruct (identity_guard_rejects (Ext := Examples.insertedY) Examples.lang
              C [Examples.otherSnap; Examples.oldSnap]
              Examples.newSnap Examples.oldSnap 4) as [Rejects Builds].
  - reflexivity.
  - reflexivity.
  - vm_compute. discriminate.
  - reflexivity.
  - left. vm_compute. discriminate.
  - split; [exact Rejects|].
    exact (Builds 0%nat Mgr Unit 0%nat eq_refl eq_refl eq_refl).
Defined.

Lemma location_remap_all_or_nothing_witness :
  mapOffsetToNewerSnapshot 4
    (replacesBetween (Collaborators := Examples.removedX) Examples.oldSnap
       Examples.newSnap) = None
  /\ passCursorInfoForDecl (Ext := Examples.removedX) Examples.locatedDecl true
       Examples.lang [Examples.otherSnap; Examples.oldSnap] = (true, []).
Proof.
  split; [reflexivity|].
  apply (location_remap_all_or_nothing (Ext := Examples.removedX)
           Examples.locatedDecl true Examples.lang
           [Examples.otherSnap; Examples.oldSnap] (4, 1)
           Examples.newSnap Examples.oldSnap).
  - reflexivity.
  - reflexivity.
  - reflexivity.
  - reflexivity.
  - vm_compute. discriminate.
  - left. reflexivity.
Defined.

Lemma location_remap_defaults_to_input_witness :
  tryRemappingLocToLatestSnapshot (Ext := Examples.removedX)
    Examples.closedLang (4, 1) "a.swift" [Examples.oldSnap] = Some (4, 1)
  /\ tryRemappingLocToLatestSnapshot (Ext := Examples.removedX)
       Examples.lang (4, 1) "a.swift" [Examples.otherSnap] = Some (4, 1)
  /\ tryRemappingLocToLatestSnapshot (Ext := Examples.removedX)
       Examples.lang (4, 1) "a.swift" [Examples.otherSnap; Examples.oldSnap]
     = None
  /\ exists Latest Prev,
       candidateSnapshot Latest [Examples.otherSnap; Examples.oldSnap]
       = Some Prev
       /\ getStamp Prev <> getStamp Latest.
Proof.
  split; [|split; [|split]].
  - destruct (location_remap_defaults_to_input (Ext := Examples.removedX)
                Examples.closedLang (4, 1) "a.swift" [Examples.oldSnap])
      as (Closed & _ & _).
    apply Closed. reflexivity.
  - destruct (location_remap_defaults_to_input (Ext := Examples.removedX)
                Examples.lang (4, 1) "a.swift" [Examples.otherSnap])
      as (_ & Foreign & _).
    apply (Foreign Examples.newSnap); reflexivity.
  - reflexivity.
  - destruct (location_remap_defaults_to_input (Ext := Examples.removedX)
                Examples.lang (4, 1) "a.swift"
                [Examples.otherSnap; Examples.oldSnap])
      as (_ & _ & Failure).
    destruct (Failure eq_refl) as (Latest & Prev & _ & Hcand & _ & Hstamp & _).
    exists Latest, Prev. split; assumption.
Defined.

(** * The claims about the pipeline *)

Section PipelineClaims.
Context `{Ext : Collaborators}.

(** C6: when the response for a resolved declaration cannot be assembled
    and the consumer holds snapshots recorded by an acceptance,
    [handlePrimaryAST] is one more run of [resolveCursor], with reuse
    disabled, and that run is one build and one call of [Receiver] with
    no further run; when the consumer holds no such snapshot,
    [handlePrimaryAST] calls [Receiver] with an empty result and runs
    nothing again. *)
Theorem retry_once_with_reuse_disabled
    (fuel built : nat) (Mgr : SwiftASTManager) (Lang : SwiftLangSupport)
    (C : CursorInfoConsumer) (Unit : ASTUnit) (Loc : Z) (VD : ValueDecl) :
  getLocForStartOfToken Unit (Offset C) = Some Loc ->
  isInvalid (resolve Unit Loc) = false ->
  Mod (resolve Unit Loc) = None ->
  targetDecl (resolve Unit Loc) = Some VD ->
  fst (passCursorInfoForDecl VD (IsRef (resolve Unit Loc)) Lang
         (PreviousASTSnaps C)) = true ->
  (PreviousASTSnaps C <> [] ->
   exists Info,
     handlePrimaryAST (resolveCursor (S fuel) Mgr Lang (InputFile C))
       Lang C Unit built
     = resolveCursor (S fuel) Mgr Lang (InputFile C) (Offset C) false built
     /\ resolveCursor (S fuel) Mgr Lang (InputFile C) (Offset C) false built
        = Some [EvResolveCursor (Offset C) false; EvBuildAST;
                EvReceiver Info])
  /\ (PreviousASTSnaps C = [] ->
      forall Again,
        handlePrimaryAST Again Lang C Unit built
        = Some [EvReceiver emptyCursorInfo]).
Proof.
  intros HLoc Hv Hm Ht Hf. split.
  - intro Hprev.
    destruct (resolveCursor_no_reuse fuel Mgr Lang (InputFile C) (Offset C)
                built) as (Info & _ & Hrun).
    exists Info. split; [|exact Hrun].
    rewrite (handlePrimaryAST_failed _ Lang C Unit built Loc VD
               HLoc Hv Hm Ht Hf).
    destruct (PreviousASTSnaps C); [contradiction | reflexivity].
  - intros Hprev Again.
    rewrite (handlePrimaryAST_failed _ Lang C Unit built Loc VD
               HLoc Hv Hm Ht Hf).
    now rewrite Hprev.
Qed.

(** C7 (amended): a query whose offset resolves to an unavailable
    declaration in a freshly built AST (no AST was at hand, or the
    consumer turned it down) ends with an empty result after that one
    build.  When the consumer accepted an existing AST and the mapped
    offset resolves to an unavailable declaration there, the pipeline
    runs once more with reuse disabled, which requests a build, and the
    query ends with what that run hands to [Receiver]. *)
Theorem unavailable_declaration_outcome
    (fuel built : nat) (Mgr : SwiftASTManager) (Lang : SwiftLangSupport)
    (File : string) (O : Z) :
  (forall Unit Loc VD,
     (forall E, getExistingAST Mgr = Some E ->
        fst (canUseASTWithSnapshots Lang (mkConsumer File O true [])
               (getSnapshots E)) = false) ->
     buildOutcome Mgr built = BuildDone Unit ->
     getLocForStartOfToken Unit O = Some Loc ->
     isInvalid (resolve Unit Loc) = false ->
     Mod (resolve Unit Loc) = None ->
     targetDecl (resolve Unit Loc) = Some VD ->
     isUnavailable VD = true ->
     resolveCursor (S fuel) Mgr Lang File O true built
     = Some [EvResolveCursor O true; EvBuildAST;
             EvReceiver emptyCursorInfo])
  /\ (forall E C' Loc VD,
        getExistingAST Mgr = Some E ->
        canUseASTWithSnapshots Lang (mkConsumer File O true [])
          (getSnapshots E) = (true, C') ->
        getLocForStartOfToken E (Offset C') = Some Loc ->
        isInvalid (resolve E Loc) = false ->
        Mod (resolve E Loc) = None ->
        targetDecl (resolve E Loc) = Some VD ->
        isUnavailable VD = true ->
        exists Info,
          freshOutcome Lang (mkConsumer File (Offset C') false [])
            (buildOutcome Mgr built) built = Some [EvReceiver Info]
          /\ resolveCursor (S (S fuel)) Mgr Lang File O true built
             = Some [EvResolveCursor O true; EvExistingAST;
                     EvResolveCursor (Offset C') false; EvBuildAST;
                     EvReceiver Info]).
Proof.
  split.
  - intros Unit Loc VD Hrej Hbuild HLoc Hv Hm Ht Hun.
    destruct (resolveCursor_fresh fuel Mgr Lang File O true built Hrej)
      as (Info & Hfresh & Hrun).
    rewrite Hrun. rewrite Hbuild in Hfresh. simpl in Hfresh.
    rewrite (handlePrimaryAST_failed _ Lang _ Unit (S built) Loc VD)
      in Hfresh; simpl; try assumption.
    + simpl in Hfresh. now injection Hfresh as <-.
    + unfold passCursorInfoForDecl. now rewrite Hun.
  - intros E C' Loc VD HE Hacc HLoc Hv Hm Ht Hun.
    destruct (canUse_accepts_records Lang _ C' _ Hacc)
      as (HFile & Hprev & Latest & _ & Hback).
    simpl in HFile, Hprev.
    assert (Hne : PreviousASTSnaps C' <> []).
    { rewrite Hprev. intro Hnil. rewrite Hnil in Hback. discriminate. }
    destruct (resolveCursor_no_reuse fuel Mgr Lang File (Offset C') built)
      as (Info & Hfresh & Hrun).
    exists Info. split; [exact Hfresh|].
    rewrite (resolveCursor_accepts (S fuel) Mgr Lang File O true built E C'
               HE Hacc).
    rewrite (handlePrimaryAST_failed _ Lang C' E built Loc VD);
      try assumption.
    + destruct (PreviousASTSnaps C'); [contradiction|].
      now rewrite Hrun.
    + unfold passCursorInfoForDecl. now rewrite Hun.
Qed.

End PipelineClaims.

Lemma retry_once_with_reuse_disabled_witness :
  (let C := mkConsumer "a.swift" 0 true [Examples.oldSnap] in
   let Unit :=
     Examples.unitOf [Examples.oldSnap]
       (Examples.tokenOf Examples.locatedDecl true false) in
   PreviousASTSnaps C <> []
   /\ exists Info,
        handlePrimaryAST (Ext := Examples.removedX)
          (resolveCursor (Ext := Examples.removedX) 1 Examples.staleManager
             Examples.lang "a.swift")
          Examples.lang C Unit 0
        = Some [EvResolveCursor 0 false; EvBuildAST; EvReceiver Info])
  /\ (let C := mkConsumer "a.swift" 0 false [] in
      let Unit :=
        Examples.unitOf [Examples.newSnap]
          (Examples.tokenOf Examples.deprecatedDecl true false) in
      handlePrimaryAST (Ext := Examples.removedX) (fun _ _ _ => None)
        Examples.lang C Unit 1
      = Some [EvReceiver emptyCursorInfo]).
Proof.
  split.
  - intros C Unit.
    assert (Hne : PreviousASTSnaps C <> []) by discriminate.
    split; [exact Hne|].
    destruct (retry_once_with_reuse_disabled (Ext := Examples.removedX)
                0 0 Examples.staleManager Examples.lang C Unit 0
                Examples.locatedDecl eq_refl eq_refl eq_refl eq_refl eq_refl)
      as [Stale _].
    destruct (Stale Hne) as (Info & Hsame & Hrun).
    exists Info. exact (eq_trans Hsame Hrun).
  - intros C Unit.
    destruct (retry_once_with_reuse_disabled (Ext := Examples.removedX)
                0 1 Examples.staleManager Examples.lang C Unit 0
                Examples.deprecatedDecl eq_refl eq_refl eq_refl eq_refl
                eq_refl)
      as [_ Fresh].
    apply Fresh. reflexivity.
Defined.

(** C7, as the specification words it, fails on the code: with an AST of
    the older snapshot at hand that the consumer accepts, a query whose
    offset resolves to an unavailable declaration first uses that AST
    and then requests a build. *)
Lemma unavailable_after_reuse_builds :
  isUnavailable Examples.deprecatedDecl = true
  /\ resolveCursor (Ext := Examples.insertedY) 2 Examples.staleManager
       Examples.lang "a.swift" 0 true 0
     = Some [EvResolveCursor 0 true; EvExistingAST;
             EvResolveCursor 0 false; EvBuildAST;
             EvReceiver emptyCursorInfo].
Proof. split; reflexivity. Qed.

Lemma unavailable_declaration_outcome_witness :
  resolveCursor (Ext := Examples.insertedY) 1 Examples.emptyManager
    Examples.lang "a.swift" 0 true 0
  = Some [EvResolveCursor 0 true; EvBuildAST; EvReceiver emptyCursorInfo]
  /\ exists Info,
       resolveCursor (Ext := Examples.insertedY) 2 Examples.staleManager
         Examples.lang "a.swift" 0 true 0
       = Some [EvResolveCursor 0 true; EvExistingAST;
               EvResolveCursor 0 false; EvBuildAST; EvReceiver Info].
Proof.
  split.
  - destruct (unavailable_declaration_outcome (Ext := Examples.insertedY)
                0 0 Examples.emptyManager Examples.lang "a.swift" 0)
      as [Fresh _].
    apply (Fresh (Examples.unitOf [Examples.newSnap]
                    (Examples.tokenOf Examples.deprecatedDecl true false))
                 0 Examples.deprecatedDecl);
      try reflexivity.
    intros E HE. discriminate.
  - destruct (unavailable_declaration_outcome (Ext := Examples.insertedY)
                0 0 Examples.staleManager Examples.lang "a.swift" 0)
      as [_ Stale].
    destruct (Stale (Examples.unitOf [Examples.oldSnap]
                       (Examples.tokenOf Examples.deprecatedDecl true false))
                    (mkConsumer "a.swift" 0 true [Examples.oldSnap])
                    0 Examples.deprecatedDecl
                    eq_refl eq_refl eq_refl eq_refl eq_refl eq_refl eq_refl)
      as (Info & _ & Hrun).
    exists Info. exact Hrun.
Defined.

(** * The claim about the related-identifier scanner *)

Section ScannerClaims.

(** With [Cancelled] never set, the walk gathers the range of every site
    that denotes the target, in the order of the sites. *)
Lemma walk_collects (Scope : list SourceEntity) (Target : nat)
    (Found : list (Z * Z)) :
  Ranges (walk (mkScanner Target Found false) Scope)
  = Found ++ map rangeOf (filter (denotes Target) Scope).
Proof.
  revert Found. induction Scope as [|Site rest IH]; intro Found; simpl.
  - now rewrite app_nil_r.
  - destruct Site as [D Range | D Range CtorTyRef];
      unfold walkToDeclPre, visitDeclReference, passId; simpl.
    + destruct (Nat.eqb D Target); simpl; rewrite IH;
        [now rewrite <- app_assoc | reflexivity].
    + destruct (Nat.eqb _ Target); simpl; rewrite IH;
        [now rewrite <- app_assoc | reflexivity].
Qed.

(** C9: for an offset that resolves to a valid token, the ranges handed
    to [Receiver] are empty when the token is a keyword-argument label,
    when the target is a constructor, destructor or subscript and the
    token is not a reference, and when the target's name is an operator;
    in every other case they are what the walk gathers over the local
    context of the target if it has one and over the whole file if it
    has none. *)
Theorem related_identifier_exclusions
    (O : Z) (Unit : ASTUnit) (Loc : Z) :
  getLocForStartOfToken Unit O = Some Loc ->
  (IsKeywordArgument (resolve Unit Loc) = true ->
   InfoRanges (relatedIdHandlePrimaryAST O Unit) = [])
  /\ forall VD,
       targetDecl (resolve Unit Loc) = Some VD ->
       (IsRef (resolve Unit Loc) = false ->
        declKind VD = ConstructorDecl \/ declKind VD = DestructorDecl
        \/ declKind VD = SubscriptDecl ->
        InfoRanges (relatedIdHandlePrimaryAST O Unit) = [])
       /\ (nameIsOperator VD = true ->
           InfoRanges (relatedIdHandlePrimaryAST O Unit) = [])
       /\ (isInvalid (resolve Unit Loc) = false ->
           IsKeywordArgument (resolve Unit Loc) = false ->
           IsRef (resolve Unit Loc) = true
           \/ (declKind VD <> ConstructorDecl
               /\ declKind VD <> DestructorDecl
               /\ declKind VD <> SubscriptDecl) ->
           nameIsOperator VD = false ->
           InfoRanges (relatedIdHandlePrimaryAST O Unit)
           = Ranges (walk (mkScanner (declId VD) [] false)
                       match localContext VD with
                       | Some LocalDC => LocalDC
                       | None => primarySourceFile Unit
                       end)).
Proof.
  intros HLoc. unfold relatedIdHandlePrimaryAST, relatedIdAction. simpl.
  rewrite HLoc. split.
  - intros ->. now destruct (isInvalid _).
  - intros VD ->. split; [|split].
    + intros -> Hkind. unfold isCtorDtorOrSubscript.
      destruct (isInvalid _); [reflexivity|].
      destruct (IsKeywordArgument _); [reflexivity|].
      now destruct Hkind as [-> | [-> | ->]].
    + intros ->. destruct (isInvalid _); [reflexivity|].
      destruct (IsKeywordArgument _); [reflexivity|].
      now destruct (negb _ && _).
    + intros -> -> Hid ->.
      replace (negb (IsRef (resolve Unit Loc)) && isCtorDtorOrSubscript VD)
        with false.
      * now destruct (localContext VD).
      * symmetry. destruct Hid as [-> | (Hc & Hd & Hs)]; [reflexivity|].
        unfold isCtorDtorOrSubscript.
        destruct (declKind VD); try contradiction;
          now rewrite andb_false_r.
Qed.

End ScannerClaims.

Lemma related_identifier_exclusions_witness :
  InfoRanges (relatedIdHandlePrimaryAST 0
                (Examples.unitOf [] (Examples.tokenOf Examples.locatedDecl
                                       true true))) = []
  /\ InfoRanges (relatedIdHandlePrimaryAST 0
                   (Examples.unitOf [] (Examples.tokenOf Examples.initDecl
                                          false false))) = []
  /\ InfoRanges (relatedIdHandlePrimaryAST 0
                   (Examples.unitOf [] (Examples.tokenOf Examples.plusDecl
                                          true false))) = []
  /\ InfoRanges (relatedIdHandlePrimaryAST 0
                   (Examples.unitOf [] (Examples.tokenOf Examples.locatedDecl
                                          true false)))
     = [(0, 3); (4, 1); (30, 1)]
  /\ InfoRanges (relatedIdHandlePrimaryAST 0
                   (Examples.unitOf [] (Examples.tokenOf Examples.localDecl
                                          false false)))
     = [(4, 1); (12, 1)].
Proof.
  split; [|split; [|split; [|split]]].
  - destruct (related_identifier_exclusions 0
                (Examples.unitOf [] (Examples.tokenOf Examples.locatedDecl
                                       true true)) 0 eq_refl) as [Label _].
    apply Label. reflexivity.
  - destruct (related_identifier_exclusions 0
                (Examples.unitOf [] (Examples.tokenOf Examples.initDecl
                                       false false)) 0 eq_refl) as [_ Target].
    destruct (Target Examples.initDecl eq_refl) as (Bare & _ & _).
    apply Bare; [reflexivity | left; reflexivity].
  - destruct (related_identifier_exclusions 0
                (Examples.unitOf [] (Examples.tokenOf Examples.plusDecl
                                       true false)) 0 eq_refl) as [_ Target].
    destruct (Target Examples.plusDecl eq_refl) as (_ & Operator & _).
    apply Operator. reflexivity.
  - destruct (related_identifier_exclusions 0
                (Examples.unitOf [] (Examples.tokenOf Examples.locatedDecl
                                       true false)) 0 eq_refl) as [_ Target].
    destruct (Target Examples.locatedDecl eq_refl) as (_ & _ & Walk).
    rewrite Walk; try reflexivity. left. reflexivity.
  - destruct (related_identifier_exclusions 0
                (Examples.unitOf [] (Examples.tokenOf Examples.localDecl
                                       false false)) 0 eq_refl) as [_ Target].
    destruct (Target Examples.localDecl eq_refl) as (_ & _ & Walk).
    rewrite Walk; try reflexivity. right. repeat split; discriminate.
Defined.

(** * Further properties of the offset remappers *)

Section RemapProperties.

Lemma sizeAfter_small (Updates : list ReplaceImmutableTextUpdate) :
  forall Size, validChain Size Updates = true ->
  sizeAfter Size Updates < 2 ^ 32.
Proof.
  induction Updates as [|Upd rest IH]; intros Size Hv.
  - simpl. now apply validChain_size in Hv.
  - apply validChain_cons in Hv. destruct Hv as [_ Hv]. simpl. now apply IH.
Qed.

(** A forward remap that goes past a record moved the offset by that
    record. *)
Lemma mapNewer_cons_some (Size O N : Z) (Upd : ReplaceImmutableTextUpdate)
    (rest : list ReplaceImmutableTextUpdate) :
  fitsSnapshot Size Upd -> 0 <= O <= Size ->
  mapOffsetToNewerSnapshot O (Upd :: rest) = Some N ->
  insideRemovedSpan O Upd = false
  /\ mapOffsetToNewerSnapshot (shiftedBy O Upd) rest = Some N.
Proof.
  intros Hfit HO. rewrite mapNewer_cons.
  rewrite (newerCallback_stops Size O Upd Hfit).
  destruct (insideRemovedSpan O Upd) eqn:Hin; simpl; [discriminate|].
  destruct (newerCallback_shift Size O Upd Hfit HO Hin) as [-> _].
  now split.
Qed.

Lemma shiftedBy_increasing (Size O1 O2 : Z) (Upd : ReplaceImmutableTextUpdate) :
  fitsSnapshot Size Upd -> O1 < O2 ->
  insideRemovedSpan O1 Upd = false -> insideRemovedSpan O2 Upd = false ->
  shiftedBy O1 Upd < shiftedBy O2 Upd.
Proof.
  intros (HS & Hb & Hl & Hin & Hout) Hlt H1 H2.
  assert (Ht := textSize_nonneg Upd).
  unfold shiftedBy, entirelyAtOrBefore, insideRemovedSpan in *.
  rewrite andb_false_iff, Z.leb_gt, Z.ltb_ge in H1, H2.
  destruct (getByteOffset Upd + getLength Upd <=? O1) eqn:E1;
    destruct (getByteOffset Upd + getLength Upd <=? O2) eqn:E2;
    rewrite ?Z.leb_le, ?Z.leb_gt in E1, E2; lia.
Qed.

(** Undoing a record and replaying it are inverse on an offset of the
    snapshot the record leads to. *)
Lemma undoUpdate_then_replay (Size Cur O : Z) (Upd : ReplaceImmutableTextUpdate) :
  fitsSnapshot Size Upd ->
  0 <= Cur <= Size - getLength Upd + textSize Upd ->
  undoUpdate Cur Upd = Some O ->
  0 <= O <= Size /\ newerCallback O Upd = (Cur, true).
Proof.
  intros (HS & Hb & Hl & Hin & Hout) HC.
  assert (Ht := textSize_nonneg Upd).
  unfold undoUpdate, newerCallback.
  rewrite (wrap64_small (getByteOffset Upd + textSize Upd))
    by (change (2 ^ 64) with 18446744073709551616;
        change (2 ^ 32) with 4294967296 in *; lia).
  rewrite (wrap32_small (getByteOffset Upd + getLength Upd)) by lia.
  destruct (getByteOffset Upd <=? Cur) eqn:Hle.
  - apply Z.leb_le in Hle.
    destruct (Cur <? getByteOffset Upd + textSize Upd) eqn:Hlt; simpl;
      [discriminate|].
    apply Z.ltb_ge in Hlt. rewrite older_adjust.
    rewrite (wrap32_small (Cur + getLength Upd - textSize Upd)) by lia.
    intro H. injection H as <-. split; [lia|].
    replace (getByteOffset Upd <=? Cur + getLength Upd - textSize Upd)
      with true by (symmetry; apply Z.leb_le; lia).
    replace (Cur + getLength Upd - textSize Upd
             <? getByteOffset Upd + getLength Upd)
      with false by (symmetry; apply Z.ltb_ge; lia).
    simpl. rewrite newer_adjust. f_equal.
    replace (Cur + getLength Upd - textSize Upd + textSize Upd
             - getLength Upd) with Cur by lia.
    apply wrap32_small. lia.
  - apply Z.leb_gt in Hle. simpl. intro H. injection H as <-.
    split; [lia|].
    replace (getByteOffset Upd <=? Cur) with false
      by (symmetry; apply Z.leb_gt; lia).
    reflexivity.
Qed.

Lemma mapOlder_cons (N : Z) (Upd : ReplaceImmutableTextUpdate)
    (rest : list ReplaceImmutableTextUpdate) :
  mapOffsetToOlderSnapshot N (Upd :: rest)
  = match mapOffsetToOlderSnapshot N rest with
    | Some Cur => undoUpdate Cur Upd
    | None => None
    end.
Proof.
  change (Upd :: rest) with ([] ++ Upd :: rest). rewrite mapOlder_split.
  destruct (mapOffsetToOlderSnapshot N rest) as [Cur|]; [|reflexivity].
  now destruct (undoUpdate Cur Upd).
Qed.

(** A forward remap that succeeds stays in the text. *)
Lemma forward_remap_bounds_aux
    (Updates : list ReplaceImmutableTextUpdate) (Size O N : Z) :
  validChain Size Updates = true -> 0 <= O <= Size ->
  mapOffsetToNewerSnapshot O Updates = Some N ->
  0 <= N <= sizeAfter Size Updates.
Proof.
  revert Size O. induction Updates as [|Upd rest IH]; intros Size O Hv HO Hm.
  - injection Hm as <-. exact HO.
  - apply validChain_cons in Hv. destruct Hv as [Hfit Hv].
    destruct (mapNewer_cons_some Size O N Upd rest Hfit HO Hm) as [Hin Hrest].
    destruct (newerCallback_shift Size O Upd Hfit HO Hin) as [_ Hr].
    simpl. eapply IH; eassumption.
Qed.

(** The forward remap keeps two offsets apart and in order. *)
Lemma forward_remap_order_aux
    (Updates : list ReplaceImmutableTextUpdate) (Size O1 O2 N1 N2 : Z) :
  validChain Size Updates = true -> 0 <= O1 -> O1 < O2 -> O2 <= Size ->
  mapOffsetToNewerSnapshot O1 Updates = Some N1 ->
  mapOffsetToNewerSnapshot O2 Updates = Some N2 ->
  N1 < N2.
Proof.
  revert Size O1 O2.
  induction Updates as [|Upd rest IH]; intros Size O1 O2 Hv H0 Hlt HS H1 H2.
  - injection H1 as <-. injection H2 as <-. exact Hlt.
  - apply validChain_cons in Hv. destruct Hv as [Hfit Hv].
    assert (HO1 : 0 <= O1 <= Size) by lia.
    assert (HO2 : 0 <= O2 <= Size) by lia.
    destruct (mapNewer_cons_some Size O1 N1 Upd rest Hfit HO1 H1)
      as [Hin1 Hr1].
    destruct (mapNewer_cons_some Size O2 N2 Upd rest Hfit HO2 H2)
      as [Hin2 Hr2].
    destruct (newerCallback_shift Size O1 Upd Hfit HO1 Hin1) as [_ Hb1].
    destruct (newerCallback_shift Size O2 Upd Hfit HO2 Hin2) as [_ Hb2].
    assert (Hs := shiftedBy_increasing Size O1 O2 Upd Hfit Hlt Hin1 Hin2).
    apply (IH _ (shiftedBy O1 Upd) (shiftedBy O2 Upd) Hv); try assumption; lia.
Qed.

(** X1: remapping across two chains laid end to end is remapping across
    the first and then the second when going forward, and across the
    second and then the first when going backward; a failure on the way
    is a failure of the whole. *)
Theorem remaps_compose (O : Z)
    (First Second : list ReplaceImmutableTextUpdate) :
  mapOffsetToNewerSnapshot O (First ++ Second)
  = match mapOffsetToNewerSnapshot O First with
    | Some Middle => mapOffsetToNewerSnapshot Middle Second
    | None => None
    end
  /\ mapOffsetToOlderSnapshot O (First ++ Second)
     = match mapOffsetToOlderSnapshot O Second with
       | Some Middle => mapOffsetToOlderSnapshot Middle First
       | None => None
       end.
Proof.
  split; [apply mapNewer_app|].
  rewrite !mapOlder_undoLoop, rev_app_distr, undoLoop_app.
  destruct (undoLoop O (rev Second)) as [Middle|]; [|reflexivity].
  now rewrite mapOlder_undoLoop.
Qed.

(** X2: over a chain that applies to the older snapshot, a forward remap
    that succeeds on an offset of the older snapshot yields an offset of
    the newer snapshot. *)
Theorem forward_remap_stays_in_text
    (Updates : list ReplaceImmutableTextUpdate) (Size O N : Z) :
  validChain Size Updates = true -> 0 <= O <= Size ->
  mapOffsetToNewerSnapshot O Updates = Some N ->
  0 <= N <= sizeAfter Size Updates.
Proof.
  revert Size O. induction Updates as [|Upd rest IH]; intros Size O Hv HO Hm.
  - injection Hm as <-. exact HO.
  - apply validChain_cons in Hv. destruct Hv as [Hfit Hv].
    destruct (mapNewer_cons_some Size O N Upd rest Hfit HO Hm) as [Hin Hrest].
    destruct (newerCallback_shift Size O Upd Hfit HO Hin) as [_ Hr].
    simpl. eapply IH; eassumption.
Qed.

Lemma forward_remap_stays_in_text_witness :
  validChain 9 [Examples.removeX; Examples.insertY] = true
  /\ mapOffsetToNewerSnapshot 9 [Examples.removeX; Examples.insertY] = Some 9
  /\ 0 <= 9 <= sizeAfter 9 [Examples.removeX; Examples.insertY].
Proof.
  split; [reflexivity|]. split; [reflexivity|].
  apply (forward_remap_stays_in_text [Examples.removeX; Examples.insertY]
           9 9 9); [reflexivity | lia | reflexivity].
Defined.

(** X3: over a chain that applies to the older snapshot, the forward
    remap keeps the order of offsets and never maps two offsets to
    one. *)
Theorem forward_remap_increasing
    (Updates : list ReplaceImmutableTextUpdate) (Size O1 O2 N1 N2 : Z) :
  validChain Size Updates = true -> 0 <= O1 -> O1 < O2 -> O2 <= Size ->
  mapOffsetToNewerSnapshot O1 Updates = Some N1 ->
  mapOffsetToNewerSnapshot O2 Updates = Some N2 ->
  N1 < N2.
Proof.
  revert Size O1 O2.
  induction Updates as [|Upd rest IH]; intros Size O1 O2 Hv H0 Hlt HS H1 H2.
  - injection H1 as <-. injection H2 as <-. exact Hlt.
  - apply validChain_cons in Hv. destruct Hv as [Hfit Hv].
    assert (HO1 : 0 <= O1 <= Size) by lia.
    assert (HO2 : 0 <= O2 <= Size) by lia.
    destruct (mapNewer_cons_some Size O1 N1 Upd rest Hfit HO1 H1)
      as [Hin1 Hr1].
    destruct (mapNewer_cons_some Size O2 N2 Upd rest Hfit HO2 H2)
      as [Hin2 Hr2].
    destruct (newerCallback_shift Size O1 Upd Hfit HO1 Hin1) as [_ Hb1].
    destruct (newerCallback_shift Size O2 Upd Hfit HO2 Hin2) as [_ Hb2].
    assert (Hs := shiftedBy_increasing Size O1 O2 Upd Hfit Hlt Hin1 Hin2).
    apply (IH _ (shiftedBy O1 Upd) (shiftedBy O2 Upd) Hv); try assumption; lia.
Qed.

Lemma forward_remap_increasing_witness :
  mapOffsetToNewerSnapshot 3 [Examples.removeX; Examples.insertY] = Some 3
  /\ mapOffsetToNewerSnapshot 5 [Examples.removeX; Examples.insertY] = Some 4
  /\ 3 < 4.
Proof.
  split; [reflexivity|]. split; [reflexivity|].
  apply (forward_remap_increasing [Examples.removeX; Examples.insertY]
           9 3 5 3 4); first [reflexivity | lia].
Defined.

(** X4: over a chain that applies to the older snapshot the two remaps
    undo each other: when the forward remap of an offset of the older
    snapshot succeeds, the backward remap of the result returns the
    offset, and when the backward remap of an offset of the newer
    snapshot succeeds, its result is an offset of the older snapshot
    whose forward remap returns the offset. *)
Theorem remaps_are_inverse
    (Updates : list ReplaceImmutableTextUpdate) (Size : Z) :
  validChain Size Updates = true ->
  (forall O N, 0 <= O <= Size ->
     mapOffsetToNewerSnapshot O Updates = Some N ->
     mapOffsetToOlderSnapshot N Updates = Some O)
  /\ (forall N O, 0 <= N <= sizeAfter Size Updates ->
        mapOffsetToOlderSnapshot N Updates = Some O ->
        0 <= O <= Size /\ mapOffsetToNewerSnapshot O Updates = Some N).
Proof.
  revert Size. induction Updates as [|Upd rest IH]; intros Size Hv.
  - split.
    + intros O N _ H. injection H as <-. reflexivity.
    + intros N O HN H. injection H as <-. now split.
  - apply validChain_cons in Hv. destruct Hv as [Hfit Hv].
    destruct (IH _ Hv) as [Hfwd Hbwd]. split.
    + intros O N HO Hm.
      destruct (mapNewer_cons_some Size O N Upd rest Hfit HO Hm)
        as [Hin Hrest].
      destruct (newerCallback_shift Size O Upd Hfit HO Hin) as [_ Hr].
      rewrite mapOlder_cons, (Hfwd _ _ Hr Hrest).
      now apply (undoUpdate_shiftedBy Size).
    + intros N O HN Hm. simpl in HN. rewrite mapOlder_cons in Hm.
      destruct (mapOffsetToOlderSnapshot N rest) as [Cur|] eqn:Hrest;
        [|discriminate].
      destruct (Hbwd _ _ HN Hrest) as [HCur Hnew].
      destruct (undoUpdate_then_replay Size Cur O Upd Hfit HCur Hm)
        as [HO Hcb].
      split; [exact HO|].
      rewrite mapNewer_cons, Hcb. exact Hnew.
Qed.

Lemma remaps_are_inverse_witness :
  validChain 9 [Examples.removeX; Examples.insertY] = true
  /\ 0 <= 6 <= sizeAfter 9 [Examples.removeX; Examples.insertY]
  /\ mapOffsetToOlderSnapshot 6 [Examples.removeX; Examples.insertY] = Some 6
  /\ mapOffsetToNewerSnapshot 6 [Examples.removeX; Examples.insertY] = Some 6.
Proof.
  split; [reflexivity|]. split; [vm_compute; split; discriminate|].
  split; [reflexivity|].
  destruct (remaps_are_inverse [Examples.removeX; Examples.insertY] 9 eq_refl)
    as [_ Back].
  apply (Back 6 6); [vm_compute; split; discriminate | reflexivity].
Defined.

End RemapProperties.

Section RemapEdges.

(** X5: an offset that lies before the start of every record of the
    chain is returned unchanged by both remaps, whatever the records
    hold. *)
Theorem offset_before_every_edit_is_kept
    (Updates : list ReplaceImmutableTextUpdate) (O : Z) :
  (forall Upd, In Upd Updates -> O < getByteOffset Upd) ->
  mapOffsetToNewerSnapshot O Updates = Some O
  /\ mapOffsetToOlderSnapshot O Updates = Some O.
Proof.
  induction Updates as [|Upd rest IH]; intro Hbefore.
  - split; reflexivity.
  - assert (Hlt : O < getByteOffset Upd) by (apply Hbefore; now left).
    destruct IH as [Hf Hb]; [intros U HU; apply Hbefore; now right|].
    assert (Hle : (getByteOffset Upd <=? O) = false)
      by (apply Z.leb_gt; exact Hlt).
    split.
    + rewrite mapNewer_cons. unfold newerCallback. rewrite Hle. exact Hf.
    + rewrite mapOlder_cons, Hb. unfold undoUpdate. now rewrite Hle.
Qed.

Lemma offset_before_every_edit_is_kept_witness :
  mapOffsetToNewerSnapshot 3 [Examples.removeX; Examples.insertY] = Some 3
  /\ mapOffsetToOlderSnapshot 3 [Examples.removeX; Examples.insertY] = Some 3.
Proof.
  apply (offset_before_every_edit_is_kept
           [Examples.removeX; Examples.insertY] 3).
  intros Upd [<- | [<- | []]]; vm_compute; reflexivity.
Defined.

(** X6: a chain of records that remove nothing never makes the forward
    remap fail, and a chain of records that insert nothing never makes
    the backward remap fail. *)
Theorem one_sided_chains_never_fail
    (Updates : list ReplaceImmutableTextUpdate) :
  (forall Upd, In Upd Updates -> 0 <= getByteOffset Upd < 2 ^ 32) ->
  ((forall Upd, In Upd Updates -> getLength Upd = 0) ->
   forall O, exists N, mapOffsetToNewerSnapshot O Updates = Some N)
  /\ ((forall Upd, In Upd Updates -> getText Upd = EmptyString) ->
      forall O, exists N, mapOffsetToOlderSnapshot O Updates = Some N).
Proof.
  induction Updates as [|Upd rest IH]; intro Hstart.
  - split; intros _ O; exists O; reflexivity.
  - assert (HU : 0 <= getByteOffset Upd < 2 ^ 32)
      by (apply Hstart; now left).
    destruct IH as [IHf IHb]; [intros U HIn; apply Hstart; now right|].
    split; intros Hall O.
    + assert (Hlen : getLength Upd = 0) by (apply Hall; now left).
      rewrite mapNewer_cons. unfold newerCallback.
      rewrite Hlen, Z.add_0_r, (wrap32_small _ HU).
      destruct (getByteOffset Upd <=? O) eqn:Hle; simpl.
      * apply Z.leb_le in Hle.
        replace (O <? getByteOffset Upd) with false
          by (symmetry; apply Z.ltb_ge; exact Hle).
        simpl. apply IHf. intros U HIn. apply Hall. now right.
      * apply IHf. intros U HIn. apply Hall. now right.
    + assert (Htxt : getText Upd = EmptyString) by (apply Hall; now left).
      rewrite mapOlder_cons.
      destruct (IHb (fun U HIn => Hall U (or_intror HIn)) O) as [Cur ->].
      unfold undoUpdate, textSize. rewrite Htxt. simpl Z.of_nat.
      rewrite Z.add_0_r.
      rewrite (wrap64_small (getByteOffset Upd))
        by (change (2 ^ 64) with 18446744073709551616;
            change (2 ^ 32) with 4294967296 in *; lia).
      destruct (getByteOffset Upd <=? Cur) eqn:Hle; simpl.
      * apply Z.leb_le in Hle.
        replace (Cur <? getByteOffset Upd) with false
          by (symmetry; apply Z.ltb_ge; exact Hle).
        eexists; reflexivity.
      * eexists; reflexivity.
Qed.

Lemma one_sided_chains_never_fail_witness :
  (exists N, mapOffsetToNewerSnapshot 5 [Examples.insertY] = Some N)
  /\ (exists N, mapOffsetToOlderSnapshot 4 [Examples.removeX] = Some N).
Proof.
  split.
  - destruct (one_sided_chains_never_fail [Examples.insertY]) as [Grow _].
    + intros Upd [<- | []]. vm_compute. split; [discriminate | reflexivity].
    + apply Grow. intros Upd [<- | []]. reflexivity.
  - destruct (one_sided_chains_never_fail [Examples.removeX]) as [_ Shrink].
    + intros Upd [<- | []]. vm_compute. split; [discriminate | reflexivity].
    + apply Shrink. intros Upd [<- | []]. reflexivity.
Defined.

(** X7: over a chain that applies to the older snapshot, the backward
    remap fails exactly when some record's inserted text holds the
    offset as it stands once the records after it have been undone. *)
Theorem backward_remap_fails_inside_inserted
    (Updates : list ReplaceImmutableTextUpdate) (Size N : Z) :
  validChain Size Updates = true ->
  (mapOffsetToOlderSnapshot N Updates = None <->
   exists Before Upd After Cur,
     Updates = Before ++ Upd :: After
     /\ mapOffsetToOlderSnapshot N After = Some Cur
     /\ getByteOffset Upd <= Cur < getByteOffset Upd + textSize Upd).
Proof.
  intro Hv. split.
  - revert Size Hv. induction Updates as [|Upd rest IH]; intros Size Hv Hnone.
    + discriminate.
    + apply validChain_cons in Hv.
      destruct Hv as [(HS & Hb & Hl & Hin & Hout) Hv].
      assert (Ht := textSize_nonneg Upd).
      rewrite mapOlder_cons in Hnone.
      destruct (mapOffsetToOlderSnapshot N rest) as [Cur|] eqn:Hrest.
      * exists [], Upd, rest, Cur. split; [reflexivity|]. split; [exact Hrest|].
        unfold undoUpdate in Hnone.
        rewrite (wrap64_small (getByteOffset Upd + textSize Upd)) in Hnone
          by (change (2 ^ 64) with 18446744073709551616;
              change (2 ^ 32) with 4294967296 in *; lia).
        destruct (getByteOffset Upd <=? Cur) eqn:Hle;
          destruct (Cur <? getByteOffset Upd + textSize Upd) eqn:Hlt;
          simpl in Hnone; try discriminate.
        apply Z.leb_le in Hle. apply Z.ltb_lt in Hlt. lia.
      * destruct (IH _ Hv eq_refl)
          as (Before & U & After & Cur & -> & Hcur & Hspan).
        exists (Upd :: Before), U, After, Cur. now repeat split.
  - intros (Before & Upd & After & Cur & -> & Hcur & Hspan).
    apply validChain_app in Hv. destruct Hv as [Size' Hv].
    apply validChain_cons in Hv.
    destruct Hv as [(HS & Hb & Hl & Hin & Hout) _].
    rewrite mapOlder_split, Hcur. unfold undoUpdate.
    rewrite (wrap64_small (getByteOffset Upd + textSize Upd))
      by (change (2 ^ 64) with 18446744073709551616;
          change (2 ^ 32) with 4294967296 in *; lia).
    replace (getByteOffset Upd <=? Cur) with true
      by (symmetry; apply Z.leb_le; lia).
    replace (Cur <? getByteOffset Upd + textSize Upd) with true
      by (symmetry; apply Z.ltb_lt; lia).
    reflexivity.
Qed.

Lemma backward_remap_fails_inside_inserted_witness :
  validChain 9 [Examples.removeX; Examples.insertY] = true
  /\ mapOffsetToOlderSnapshot 5 [Examples.removeX; Examples.insertY] = None.
Proof.
  split; [reflexivity|].
  apply (backward_remap_fails_inside_inserted
           [Examples.removeX; Examples.insertY] 9 5 eq_refl).
  exists [Examples.removeX], Examples.insertY, [], 5.
  split; [reflexivity|]. split; [reflexivity|].
  split; [vm_compute; discriminate | reflexivity].
Defined.

End RemapEdges.

(** * Further properties of the location remap and of the negotiation *)

Section NegotiationProperties.
Context `{Ext : Collaborators}.

(** X8: when the first snapshot of the AST that is from the buffer of
    the file's latest snapshot carries the stamp of that latest
    snapshot, the location is handed back as it came and no edit record
    is looked at, whatever snapshots follow in the list. *)
Theorem location_kept_at_same_stamp
    (Lang : SwiftLangSupport) (Range : Z * Z) (Filename : string)
    (Snaps : list ImmutableTextSnapshot)
    (Latest Prev : ImmutableTextSnapshot) :
  latestSnapshotOf Lang Filename = Some Latest ->
  candidateSnapshot Latest Snaps = Some Prev ->
  getStamp Prev = getStamp Latest ->
  tryRemappingLocToLatestSnapshot Lang Range Filename Snaps = Some Range.
Proof.
  intros HLatest Hcand Hstamp. unfold tryRemappingLocToLatestSnapshot.
  rewrite HLatest.
  destruct (candidate_remap Latest Prev Range Snaps Hcand) as [-> Hsame].
  simpl. rewrite Hsame, Hstamp, Z.eqb_refl. reflexivity.
Qed.

(** X9: when the records between the candidate snapshot and the latest
    one apply to a text of [Size] bytes and the range lies in that text,
    a location remap that succeeds yields a range of the latest text:
    its begin and its end are the forward remaps of the begin and the
    end, the end does not come before the begin, and the length is their
    true distance. *)
Theorem remapped_range_is_a_range
    (Lang : SwiftLangSupport) (Begin Len : Z) (Filename : string)
    (Snaps : list ImmutableTextSnapshot)
    (Latest Prev : ImmutableTextSnapshot) (Size NewBegin NewLen : Z) :
  latestSnapshotOf Lang Filename = Some Latest ->
  candidateSnapshot Latest Snaps = Some Prev ->
  getStamp Prev <> getStamp Latest ->
  validChain Size (replacesBetween Prev Latest) = true ->
  0 <= Begin -> 0 <= Len -> Begin + Len <= Size ->
  tryRemappingLocToLatestSnapshot Lang (Begin, Len) Filename Snaps
  = Some (NewBegin, NewLen) ->
  mapOffsetToNewerSnapshot Begin (replacesBetween Prev Latest)
  = Some NewBegin
  /\ mapOffsetToNewerSnapshot (Begin + Len) (replacesBetween Prev Latest)
     = Some (NewBegin + NewLen)
  /\ 0 <= NewBegin /\ 0 <= NewLen
  /\ NewBegin + NewLen <= sizeAfter Size (replacesBetween Prev Latest).
Proof.
  intros HLatest Hcand Hstamp Hv HB HL HS.
  assert (H32 := validChain_size _ _ Hv).
  unfold tryRemappingLocToLatestSnapshot. rewrite HLatest.
  destruct (candidate_remap Latest Prev (Begin, Len) Snaps Hcand)
    as [-> Hsame].
  simpl. rewrite Hsame.
  replace (getStamp Prev =? getStamp Latest) with false
    by (symmetry; now apply Z.eqb_neq).
  rewrite (wrap32_small (Begin + Len)) by lia.
  destruct (mapOffsetToNewerSnapshot Begin (replacesBetween Prev Latest))
    as [B|] eqn:HmB; [|discriminate].
  destruct (mapOffsetToNewerSnapshot (Begin + Len)
              (replacesBetween Prev Latest)) as [E|] eqn:HmE; [|discriminate].
  assert (HBb : 0 <= B <= sizeAfter Size (replacesBetween Prev Latest))
    by (eapply forward_remap_bounds_aux; try eassumption; lia).
  assert (HEb : 0 <= E <= sizeAfter Size (replacesBetween Prev Latest))
    by (eapply forward_remap_bounds_aux; try eassumption; lia).
  assert (Hsz := sizeAfter_small _ _ Hv).
  assert (Hord : B <= E).
  { destruct (Z.eq_dec Len 0) as [-> | Hpos].
    - rewrite Z.add_0_r in HmE. rewrite HmB in HmE. injection HmE as ->. lia.
    - assert (B < E); [|lia].
      eapply (forward_remap_order_aux (replacesBetween Prev Latest) Size
                Begin (Begin + Len)); try eassumption; lia. }
  intro H. injection H as <- <-.
  rewrite (wrap32_small (E - B)) by lia.
  repeat split; try lia. f_equal. lia.
Qed.

End NegotiationProperties.

Lemma location_kept_at_same_stamp_witness :
  mapOffsetToNewerSnapshot 4
    (replacesBetween (Collaborators := Examples.removedX) Examples.newSnap
       Examples.newSnap) = None
  /\ tryRemappingLocToLatestSnapshot (Ext := Examples.removedX) Examples.lang
       (4, 1) "a.swift" [Examples.otherSnap; Examples.newSnap; Examples.oldSnap]
     = Some (4, 1).
Proof.
  split; [reflexivity|].
  apply (location_kept_at_same_stamp (Ext := Examples.removedX) Examples.lang
           (4, 1) "a.swift"
           [Examples.otherSnap; Examples.newSnap; Examples.oldSnap]
           Examples.newSnap Examples.newSnap); reflexivity.
Defined.

Lemma remapped_range_is_a_range_witness :
  tryRemappingLocToLatestSnapshot (Ext := Examples.insertedY) Examples.lang
    (6, 1) "a.swift" [Examples.oldSnap] = Some (7, 1)
  /\ mapOffsetToNewerSnapshot (6 + 1)
       (replacesBetween (Collaborators := Examples.insertedY) Examples.oldSnap
          Examples.newSnap) = Some (7 + 1)
  /\ 7 + 1 <= sizeAfter 9
                (replacesBetween (Collaborators := Examples.insertedY)
                   Examples.oldSnap Examples.newSnap).
Proof.
  split; [reflexivity|].
  destruct (remapped_range_is_a_range (Ext := Examples.insertedY)
              Examples.lang 6 1 "a.swift" [Examples.oldSnap]
              Examples.newSnap Examples.oldSnap 9 7 1)
    as (_ & HEnd & _ & _ & HSize);
    try reflexivity; try lia; try (vm_compute; discriminate).
  split; assumption.
Defined.

Section AcceptanceProperties.
Context `{Ext : Collaborators}.

(** The lambda looks at the candidate snapshot only. *)
Lemma mappedBack_by_candidate (O : Z) (Latest : ImmutableTextSnapshot)
    (Snapshots : list ImmutableTextSnapshot) :
  mappedBackOffset O Latest Snapshots
  = match candidateSnapshot Latest Snapshots with
    | Some Snap => mappedBackOffset O Latest [Snap]
    | None => None
    end.
Proof.
  unfold candidateSnapshot.
  induction Snapshots as [|S rest IH]; simpl; [reflexivity|].
  destruct (isFromSameBuffer S Latest) eqn:Hsame.
  - simpl. now rewrite Hsame.
  - exact IH.
Qed.

Lemma candidate_same_buffer (Latest Snap : ImmutableTextSnapshot)
    (Snapshots : list ImmutableTextSnapshot) :
  candidateSnapshot Latest Snapshots = Some Snap ->
  isFromSameBuffer Snap Latest = true.
Proof.
  unfold candidateSnapshot. intro H. apply find_some in H. apply H.
Qed.

(** X10: [canUseASTWithSnapshots] answers yes exactly when reuse was
    asked for, the input file has a latest snapshot, the snapshots of
    the AST hold one from the same buffer, and that candidate either
    carries the latest stamp (the offset is kept, no token is read) or
    is reached by a backward remap whose result points at the same,
    non-empty token; the consumer then holds the mapped offset and the
    snapshots of the AST appended to the ones it had. *)
Theorem reuse_accepted_exactly_when
    (Lang : SwiftLangSupport) (C C' : CursorInfoConsumer)
    (Snapshots : list ImmutableTextSnapshot) :
  canUseASTWithSnapshots Lang C Snapshots = (true, C') <->
  TryExistingAST C = true
  /\ exists Latest Snap Old,
       latestSnapshotOf Lang (InputFile C) = Some Latest
       /\ candidateSnapshot Latest Snapshots = Some Snap
       /\ C' = mkConsumer (InputFile C) Old true
                 (PreviousASTSnaps C ++ Snapshots)
       /\ ((getStamp Snap = getStamp Latest /\ Old = Offset C)
           \/ (getStamp Snap <> getStamp Latest
               /\ mapOffsetToOlderSnapshot (Offset C)
                    (replacesBetween Snap Latest) = Some Old
               /\ getSourceToken (Offset C) Latest <> EmptyString
               /\ getSourceToken (Offset C) Latest
                  = getSourceToken Old Snap)).
Proof.
  unfold canUseASTWithSnapshots. split.
  - destruct (TryExistingAST C) eqn:HTry; simpl; [|discriminate].
    destruct (latestSnapshotOf Lang (InputFile C)) as [Latest|];
      [|discriminate].
    rewrite mappedBack_by_candidate.
    destruct (candidateSnapshot Latest Snapshots) as [Snap|] eqn:Hcand;
      [|discriminate].
    simpl. rewrite (candidate_same_buffer _ _ _ Hcand).
    destruct (getStamp Snap =? getStamp Latest) eqn:Hst.
    + apply Z.eqb_eq in Hst. intro H. injection H as <-.
      split; [reflexivity|]. exists Latest, Snap, (Offset C).
      split; [reflexivity|]. split; [exact Hcand|]. split; [reflexivity|].
      left. now split.
    + apply Z.eqb_neq in Hst.
      destruct (mapOffsetToOlderSnapshot (Offset C)
                  (replacesBetween Snap Latest)) as [Old|] eqn:Hmap;
        [|discriminate].
      destruct (String.eqb_spec (getSourceToken (Offset C) Latest)
                  EmptyString) as [|Hfull]; [discriminate|].
      destruct (String.eqb_spec (getSourceToken (Offset C) Latest)
                  (getSourceToken Old Snap)) as [Heq|]; [|discriminate].
      intro H. injection H as <-.
      split; [reflexivity|]. exists Latest, Snap, Old.
      split; [reflexivity|]. split; [exact Hcand|]. split; [reflexivity|].
      right. split; [exact Hst|]. split; [exact Hmap|].
      split; assumption.
  - intros (HTry & Latest & Snap & Old & HLatest & Hcand & -> & Hcase).
    rewrite HTry, HLatest, mappedBack_by_candidate, Hcand. simpl.
    rewrite (candidate_same_buffer _ _ _ Hcand).
    destruct Hcase as [[Hst ->] | (Hst & Hmap & Hfull & Heq)].
    + now rewrite Hst, Z.eqb_refl.
    + replace (getStamp Snap =? getStamp Latest) with false
        by (symmetry; now apply Z.eqb_neq).
      rewrite Hmap.
      destruct (String.eqb_spec (getSourceToken (Offset C) Latest)
                  EmptyString) as [|_]; [contradiction|].
      destruct (String.eqb_spec (getSourceToken (Offset C) Latest)
                  (getSourceToken Old Snap)) as [_|]; [|contradiction].
      reflexivity.
Qed.

(** X11: with no snapshot recorded by an acceptance (a fresh AST, or a
    module-interface document), [passCursorInfoForDecl] fails exactly
    for an unavailable declaration, and otherwise calls [Receiver] once
    with the location the declaration has, not remapped. *)
Theorem fresh_assembly_fails_only_if_unavailable
    (VD : ValueDecl) (IsRef : bool) (Lang : SwiftLangSupport) :
  passCursorInfoForDecl VD IsRef Lang []
  = if isUnavailable VD then (true, [])
    else (false, [EvReceiver (declCursorInfo VD IsRef Lang (declLoc VD))]).
Proof.
  unfold passCursorInfoForDecl, tryRemappingLocToLatestSnapshot.
  destruct (isUnavailable VD); [reflexivity|].
  destruct (declLoc VD) as [Range|]; [|reflexivity].
  now destruct (latestSnapshotOf Lang (declFilename VD)).
Qed.

End AcceptanceProperties.

Lemma reuse_accepted_exactly_when_witness :
  canUseASTWithSnapshots (Ext := Examples.insertedY) Examples.lang
    (mkConsumer "a.swift" 7 true []) [Examples.otherSnap; Examples.oldSnap]
  = (true, mkConsumer "a.swift" 6 true [Examples.otherSnap; Examples.oldSnap]).
Proof.
  apply (reuse_accepted_exactly_when (Ext := Examples.insertedY)).
  split; [reflexivity|].
  exists Examples.newSnap, Examples.oldSnap, 6.
  split; [reflexivity|]. split; [reflexivity|]. split; [reflexivity|].
  right. split; [vm_compute; discriminate|]. split; [reflexivity|].
  split; [vm_compute; discriminate | reflexivity].
Defined.

(** * Further properties of the pipeline *)

Section PipelineProperties.
Context `{Ext : Collaborators}.

Lemma passCursorInfoForDecl_not_cancelled (VD : ValueDecl) (IsRef : bool)
    (Lang : SwiftLangSupport) (Snaps : list ImmutableTextSnapshot) :
  passCursorInfoForDecl VD IsRef Lang Snaps = (true, [])
  \/ exists Info,
       IsCancelled Info = false
       /\ passCursorInfoForDecl VD IsRef Lang Snaps
          = (false, [EvReceiver Info]).
Proof.
  unfold passCursorInfoForDecl.
  destruct (isUnavailable VD); [now left|].
  destruct (declLoc VD) as [Range|].
  - destruct (tryRemappingLocToLatestSnapshot Lang Range (declFilename VD)
                Snaps); [right | now left].
    eexists. split; [|reflexivity]. reflexivity.
  - right. eexists. split; [|reflexivity]. reflexivity.
Qed.

(** [handlePrimaryAST] either calls [Receiver] once, with a result that
    is not marked cancelled, or is the run it starts again. *)
Lemma handlePrimaryAST_shape
    (Again : Z -> bool -> nat -> option (list Event))
    (Lang : SwiftLangSupport) (C : CursorInfoConsumer) (Unit : ASTUnit)
    (built : nat) :
  (exists Info,
     IsCancelled Info = false
     /\ handlePrimaryAST Again Lang C Unit built = Some [EvReceiver Info])
  \/ (PreviousASTSnaps C <> []
      /\ handlePrimaryAST Again Lang C Unit built
         = Again (Offset C) false built).
Proof.
  unfold handlePrimaryAST.
  destruct (getLocForStartOfToken Unit (Offset C)) as [Loc|];
    [|left; exists emptyCursorInfo; now split].
  destruct (isInvalid (resolve Unit Loc)) eqn:Hv;
    [left; exists emptyCursorInfo; now split|].
  destruct (Mod (resolve Unit Loc)) as [M|] eqn:Hm.
  { left. eexists. split; [|reflexivity]. reflexivity. }
  destruct (targetDecl_of_valid _ Hv Hm) as [VD ->].
  destruct (passCursorInfoForDecl_not_cancelled VD (IsRef (resolve Unit Loc))
              Lang (PreviousASTSnaps C)) as [-> | (Info & HInfo & ->)].
  - destruct (PreviousASTSnaps C) as [|Snap rest].
    + left. exists emptyCursorInfo. now split.
    + right. split; [discriminate|]. simpl.
      now destruct (Again (Offset C) false built).
  - left. exists Info. now split.
Qed.

(** The result a fresh run delivers is marked cancelled exactly when the
    build was cancelled. *)
Lemma freshOutcome_cancelled (Lang : SwiftLangSupport)
    (C : CursorInfoConsumer) (Result : BuildResult) (built : nat)
    (Info : CursorInfo) :
  PreviousASTSnaps C = [] ->
  freshOutcome Lang C Result built = Some [EvReceiver Info] ->
  (IsCancelled Info = true <-> Result = BuildCancelled).
Proof.
  intros Hprev. unfold freshOutcome. destruct Result as [Unit| |Err].
  - destruct (handlePrimaryAST_shape (fun _ _ _ => None) Lang C Unit (S built))
      as [(Info' & Hc & ->) | [Hne _]]; [|contradiction].
    intro H. injection H as <-. rewrite Hc. split; discriminate.
  - intro H. injection H as <-. split; reflexivity.
  - intro H. injection H as <-. split; discriminate.
Qed.

(** The three courses a query can take. *)
Lemma query_shape (fuel : nat) (Mgr : SwiftASTManager)
    (Lang : SwiftLangSupport) (File : string) (O : Z) (Try : bool)
    (built : nat) :
  exists T,
    resolveCursor (S (S fuel)) Mgr Lang File O Try built = Some T
    /\ ((exists Info,
           freshOutcome Lang (mkConsumer File O Try [])
             (buildOutcome Mgr built) built = Some [EvReceiver Info]
           /\ T = [EvResolveCursor O Try; EvBuildAST; EvReceiver Info])
        \/ (exists Info,
              IsCancelled Info = false
              /\ T = [EvResolveCursor O Try; EvExistingAST; EvReceiver Info])
        \/ (exists Old Info,
              freshOutcome Lang (mkConsumer File Old false [])
                (buildOutcome Mgr built) built = Some [EvReceiver Info]
              /\ T = [EvResolveCursor O Try; EvExistingAST;
                      EvResolveCursor Old false; EvBuildAST;
                      EvReceiver Info])).
Proof.
  destruct (getExistingAST Mgr) as [E|] eqn:HE.
  - destruct (canUseASTWithSnapshots Lang (mkConsumer File O Try [])
                (getSnapshots E)) as [Use C'] eqn:Hacc.
    destruct Use.
    + rewrite (resolveCursor_accepts (S fuel) Mgr Lang File O Try built E C'
                 HE Hacc).
      destruct (handlePrimaryAST_shape (resolveCursor (S fuel) Mgr Lang File)
                  Lang C' E built) as [(Info & Hc & ->) | [_ ->]].
      * eexists. split; [reflexivity|]. right. left. now exists Info.
      * destruct (resolveCursor_no_reuse fuel Mgr Lang File (Offset C') built)
          as (Info & Hfresh & ->).
        eexists. split; [reflexivity|]. right. right.
        now exists (Offset C'), Info.
    + destruct (resolveCursor_fresh (S fuel) Mgr Lang File O Try built)
        as (Info & Hfresh & ->).
      * intros U HU. rewrite HE in HU. injection HU as <-. now rewrite Hacc.
      * eexists. split; [reflexivity|]. left. now exists Info.
  - destruct (resolveCursor_fresh (S fuel) Mgr Lang File O Try built)
      as (Info & Hfresh & ->).
    + intros U HU. rewrite HE in HU. discriminate.
    + eexists. split; [reflexivity|]. left. now exists Info.
Qed.

(** X12: every run of [resolveCursor] comes to an end and calls
    [Receiver] exactly once, as the last thing it does; it asks for at
    most one build and runs the pipeline at most twice. *)
Theorem query_delivers_once (fuel : nat) (Mgr : SwiftASTManager)
    (Lang : SwiftLangSupport) (File : string) (O : Z) (Try : bool)
    (built : nat) :
  exists T Before Info,
    resolveCursor (S (S fuel)) Mgr Lang File O Try built = Some T
    /\ T = Before ++ [EvReceiver Info]
    /\ countOf isReceiverCall T = 1%nat
    /\ (countOf isBuildRequest T <= 1)%nat
    /\ (countOf isPipelineRun T <= 2)%nat.
Proof.
  destruct (query_shape fuel Mgr Lang File O Try built)
    as (T & HT & [(Info & _ & ->) | [(Info & _ & ->) | (Old & Info & _ & ->)]]).
  - eexists. exists [EvResolveCursor O Try; EvBuildAST], Info.
    split; [exact HT|]. repeat split; cbn; lia.
  - eexists. exists [EvResolveCursor O Try; EvExistingAST], Info.
    split; [exact HT|]. repeat split; cbn; lia.
  - eexists.
    exists [EvResolveCursor O Try; EvExistingAST;
            EvResolveCursor Old false; EvBuildAST], Info.
    split; [exact HT|]. repeat split; cbn; lia.
Qed.

(** X13: the result a query delivers is marked cancelled exactly when
    the query asked for a build and that build was cancelled; a result
    assembled from an AST, an empty result and the result of a failed
    build are never marked cancelled. *)
Theorem cancelled_only_by_cancelled_build (fuel : nat)
    (Mgr : SwiftASTManager) (Lang : SwiftLangSupport) (File : string)
    (O : Z) (Try : bool) (built : nat) (T : list Event) (Info : CursorInfo) :
  resolveCursor (S (S fuel)) Mgr Lang File O Try built = Some T ->
  In (EvReceiver Info) T ->
  (IsCancelled Info = true <->
   In EvBuildAST T /\ buildOutcome Mgr built = BuildCancelled).
Proof.
  intros HT HIn.
  destruct (query_shape fuel Mgr Lang File O Try built)
    as (T' & HT' & Hshape).
  rewrite HT in HT'. injection HT' as <-.
  destruct Hshape
    as [(I & Hf & ->) | [(I & Hc & ->) | (Old & I & Hf & ->)]].
  - assert (I = Info)
      by (simpl in HIn; destruct HIn as [H|[H|[H|[]]]]; congruence).
    subst I. rewrite (freshOutcome_cancelled Lang (mkConsumer File O Try []) _ _ _
               eq_refl Hf).
    split; [intro; split; [simpl; tauto | assumption] | tauto].
  - assert (I = Info)
      by (simpl in HIn; destruct HIn as [H|[H|[H|[]]]]; congruence).
    subst I. rewrite Hc. split; [discriminate|].
    intros [HB _]. simpl in HB.
    destruct HB as [H|[H|[H|[]]]]; discriminate.
  - assert (I = Info)
      by (simpl in HIn; destruct HIn as [H|[H|[H|[H|[H|[]]]]]]; congruence).
    subst I. rewrite (freshOutcome_cancelled Lang (mkConsumer File Old false []) _ _ _
               eq_refl Hf).
    split; [intro; split; [simpl; tauto | assumption] | tauto].
Qed.

(** X14: when the consumer accepts the AST at hand and that AST has no
    token at the mapped offset, or resolves the token to nothing, the
    query ends with an empty result; no build is asked for and the
    pipeline is not run again. *)
Theorem unresolved_in_reused_ast_is_final (fuel : nat)
    (Mgr : SwiftASTManager) (Lang : SwiftLangSupport) (File : string)
    (O : Z) (Try : bool) (built : nat) (E : ASTUnit)
    (C' : CursorInfoConsumer) :
  getExistingAST Mgr = Some E ->
  canUseASTWithSnapshots Lang (mkConsumer File O Try []) (getSnapshots E)
  = (true, C') ->
  getLocForStartOfToken E (Offset C') = None
  \/ (exists Loc, getLocForStartOfToken E (Offset C') = Some Loc
                  /\ isInvalid (resolve E Loc) = true) ->
  resolveCursor (S fuel) Mgr Lang File O Try built
  = Some [EvResolveCursor O Try; EvExistingAST; EvReceiver emptyCursorInfo].
Proof.
  intros HE Hacc Hun.
  rewrite (resolveCursor_accepts fuel Mgr Lang File O Try built E C' HE Hacc).
  unfold handlePrimaryAST.
  destruct Hun as [-> | (Loc & -> & ->)]; reflexivity.
Qed.

(** X15: when the consumer accepts the AST at hand and the response for
    the declaration found there cannot be assembled, the pipeline is run
    again from the offset as mapped back into the older snapshot, not
    from the offset of the query. *)
Theorem retry_starts_at_mapped_offset (fuel : nat)
    (Mgr : SwiftASTManager) (Lang : SwiftLangSupport) (File : string)
    (O : Z) (built : nat) (E : ASTUnit) (C' : CursorInfoConsumer)
    (Loc : Z) (VD : ValueDecl) :
  getExistingAST Mgr = Some E ->
  canUseASTWithSnapshots Lang (mkConsumer File O true []) (getSnapshots E)
  = (true, C') ->
  getLocForStartOfToken E (Offset C') = Some Loc ->
  isInvalid (resolve E Loc) = false ->
  Mod (resolve E Loc) = None ->
  targetDecl (resolve E Loc) = Some VD ->
  fst (passCursorInfoForDecl VD (IsRef (resolve E Loc)) Lang
         (PreviousASTSnaps C')) = true ->
  exists Latest Info,
    latestSnapshotOf Lang File = Some Latest
    /\ mappedBackOffset O Latest (getSnapshots E) = Some (Offset C')
    /\ resolveCursor (S (S fuel)) Mgr Lang File O true built
       = Some [EvResolveCursor O true; EvExistingAST;
               EvResolveCursor (Offset C') false; EvBuildAST;
               EvReceiver Info].
Proof.
  intros HE Hacc HLoc Hv Hm Ht Hf.
  destruct (canUse_accepts_records Lang _ C' _ Hacc)
    as (_ & Hprev & Latest & HLatest & Hback).
  simpl in Hprev, HLatest, Hback.
  assert (Hne : PreviousASTSnaps C' <> []).
  { rewrite Hprev. intro Hnil. rewrite Hnil in Hback. discriminate. }
  destruct (resolveCursor_no_reuse fuel Mgr Lang File (Offset C') built)
    as (Info & _ & Hrun).
  exists Latest, Info. split; [exact HLatest|]. split; [exact Hback|].
  rewrite (resolveCursor_accepts (S fuel) Mgr Lang File O true built E C'
             HE Hacc).
  rewrite (handlePrimaryAST_failed _ Lang C' E built Loc VD); try assumption.
  destruct (PreviousASTSnaps C'); [contradiction|].
  now rewrite Hrun.
Qed.

End PipelineProperties.

Lemma cancelled_only_by_cancelled_build_witness :
  resolveCursor (Ext := Examples.insertedY) 2 MoreExamples.cancellingManager
    Examples.lang "a.swift" 0 true 0
  = Some [EvResolveCursor 0 true; EvBuildAST; EvReceiver cancelledInfo]
  /\ (IsCancelled cancelledInfo = true <->
      In EvBuildAST [EvResolveCursor 0 true; EvBuildAST;
                     EvReceiver cancelledInfo]
      /\ buildOutcome MoreExamples.cancellingManager 0 = BuildCancelled).
Proof.
  split; [reflexivity|].
  apply (cancelled_only_by_cancelled_build (Ext := Examples.insertedY) 0
           MoreExamples.cancellingManager Examples.lang "a.swift" 0 true 0).
  - reflexivity.
  - simpl. tauto.
Defined.

Lemma unresolved_in_reused_ast_is_final_witness :
  resolveCursor (Ext := Examples.insertedY) 1 MoreExamples.blindManager
    Examples.lang "a.swift" 7 true 0
  = Some [EvResolveCursor 7 true; EvExistingAST; EvReceiver emptyCursorInfo].
Proof.
  apply (unresolved_in_reused_ast_is_final (Ext := Examples.insertedY) 0
           MoreExamples.blindManager Examples.lang "a.swift" 7 true 0
           MoreExamples.blindUnit
           (mkConsumer "a.swift" 6 true [Examples.oldSnap])).
  - reflexivity.
  - reflexivity.
  - left. reflexivity.
Defined.

Lemma retry_starts_at_mapped_offset_witness :
  exists Info,
    resolveCursor (Ext := Examples.removedX) 2 MoreExamples.locatedManager
      MoreExamples.shrunkLang "a.swift" 5 true 0
    = Some [EvResolveCursor 5 true; EvExistingAST;
            EvResolveCursor 6 false; EvBuildAST; EvReceiver Info].
Proof.
  destruct (retry_starts_at_mapped_offset (Ext := Examples.removedX) 0
              MoreExamples.locatedManager MoreExamples.shrunkLang "a.swift"
              5 0
              (Examples.unitOf [Examples.oldSnap]
                 (Examples.tokenOf Examples.locatedDecl true false))
              (mkConsumer "a.swift" 6 true [Examples.oldSnap])
              6 Examples.locatedDecl
              eq_refl eq_refl eq_refl eq_refl eq_refl eq_refl eq_refl)
    as (Latest & Info & _ & _ & Hrun).
  exists Info. exact Hrun.
Defined.

(** * Properties of [getCursorInfo] *)

Section EntryPoint.
Context `{Ext : Collaborators}.

Lemma passCursorInfoForDecl_fresh (VD : ValueDecl) (IsRef : bool)
    (Lang : SwiftLangSupport) :
  passCursorInfoForDecl VD IsRef Lang []
  = if isUnavailable VD then (true, [])
    else (false, [EvReceiver (declCursorInfo VD IsRef Lang (declLoc VD))]).
Proof.
  unfold passCursorInfoForDecl, tryRemappingLocToLatestSnapshot.
  destruct (isUnavailable VD); [reflexivity|].
  destruct (declLoc VD) as [Range|]; [|reflexivity].
  now destruct (latestSnapshotOf Lang (declFilename VD)).
Qed.

(** X16: [getCursorInfo] calls [Receiver] exactly once, with one
    exception: for a module-interface document whose entity at the
    offset is an unavailable declaration it returns without calling
    [Receiver] at all. *)
Theorem getCursorInfo_deliveries (fuel : nat) (Mgr : SwiftASTManager)
    (Lang : SwiftLangSupport) (IFaceGenRef : option (Z -> ResolvedEntity))
    (InvokOk : bool) (File : string) (O : Z) (built : nat) :
  ((exists Entity Dcl,
      IFaceGenRef = Some Entity /\ entityMod (Entity O) = None
      /\ entityDcl (Entity O) = Some Dcl /\ isUnavailable Dcl = true) ->
   getCursorInfo (S (S fuel)) Mgr Lang IFaceGenRef InvokOk File O built
   = Some [])
  /\ (~ (exists Entity Dcl,
           IFaceGenRef = Some Entity /\ entityMod (Entity O) = None
           /\ entityDcl (Entity O) = Some Dcl /\ isUnavailable Dcl = true) ->
      exists T,
        getCursorInfo (S (S fuel)) Mgr Lang IFaceGenRef InvokOk File O built
        = Some T
        /\ countOf isReceiverCall T = 1%nat).
Proof.
  split.
  - intros (Entity & Dcl & -> & Hm & Hd & Hun).
    unfold getCursorInfo, isResolved.
    rewrite Hd, Hm, passCursorInfoForDecl_fresh, Hun. reflexivity.
  - intro Hloud. unfold getCursorInfo.
    destruct IFaceGenRef as [Entity|].
    + unfold isResolved.
      destruct (entityDcl (Entity O)) as [Dcl|] eqn:Hd;
        destruct (entityMod (Entity O)) as [M|] eqn:Hm;
        try (eexists; split; [reflexivity | reflexivity]).
      rewrite passCursorInfoForDecl_fresh.
      destruct (isUnavailable Dcl) eqn:Hun.
      * exfalso. apply Hloud. now exists Entity, Dcl.
      * eexists; split; reflexivity.
    + destruct InvokOk; [|eexists; split; reflexivity].
      destruct (query_shape fuel Mgr Lang File O true built)
        as (T & HT & [(Info & _ & ->) | [(Info & _ & ->)
                                        | (Old & Info & _ & ->)]]);
        eexists; (split; [exact HT | reflexivity]).
Qed.

(** X17: a query on a module-interface document is answered from the
    document alone: the result does not depend on the AST manager, on
    the invocation or on the fuel, no AST is used or built, and
    [Receiver] is called at most once. *)
Theorem interface_document_needs_no_ast
    (Lang : SwiftLangSupport) (Entity : Z -> ResolvedEntity)
    (File : string) (O : Z) :
  exists T,
    (forall fuel Mgr InvokOk built,
       getCursorInfo fuel Mgr Lang (Some Entity) InvokOk File O built
       = Some T)
    /\ countOf usesManager T = 0%nat
    /\ (List.length T <= 1)%nat.
Proof.
  unfold getCursorInfo.
  destruct (isResolved (Entity O));
    [|eexists; split; [reflexivity | split; cbn; lia]].
  destruct (entityMod (Entity O));
    [eexists; split; [reflexivity | split; cbn; lia]|].
  destruct (entityDcl (Entity O)) as [Dcl|];
    [|eexists; split; [reflexivity | split; cbn; lia]].
  rewrite passCursorInfoForDecl_fresh.
  destruct (isUnavailable Dcl);
    eexists; (split; [reflexivity | split; cbn; lia]).
Qed.

End EntryPoint.

Lemma getCursorInfo_deliveries_witness :
  getCursorInfo (Ext := Examples.insertedY) 2 Examples.emptyManager
    Examples.lang (Some (fun _ => MoreExamples.deprecatedEntity)) true
    "Swift.swiftinterface" 10 0 = Some []
  /\ exists T,
       getCursorInfo (Ext := Examples.insertedY) 2 Examples.emptyManager
         Examples.lang None true "a.swift" 0 0 = Some T
       /\ countOf isReceiverCall T = 1%nat.
Proof.
  split.
  - apply (getCursorInfo_deliveries (Ext := Examples.insertedY) 0
             Examples.emptyManager Examples.lang
             (Some (fun _ => MoreExamples.deprecatedEntity)) true
             "Swift.swiftinterface" 10 0).
    exists (fun _ => MoreExamples.deprecatedEntity), Examples.deprecatedDecl.
    repeat split.
  - apply (getCursorInfo_deliveries (Ext := Examples.insertedY) 0
             Examples.emptyManager Examples.lang None true "a.swift" 0 0).
    intros (Entity & Dcl & H & _). discriminate.
Defined.

(** * Properties of [walkRelatedDecls] *)

Section RelatedDeclsProperties.
Variable FullName : ValueDecl -> string.
Variable AttrsUnavailable : ValueDecl -> bool.
Variable VD : ValueDecl.

Lemma lookupRelated_decls (Results : list ValueDecl) :
  forall NamesSeen RelatedDecls,
  snd (lookupRelated FullName AttrsUnavailable VD Results NamesSeen
         RelatedDecls)
  = RelatedDecls ++ filter (isRelated AttrsUnavailable VD) Results.
Proof.
  induction Results as [|R rest IH]; intros NamesSeen RelatedDecls; simpl.
  - now rewrite app_nil_r.
  - unfold isRelated at 1.
    destruct (AttrsUnavailable R); simpl; [apply IH|].
    destruct (Nat.eqb (declId R) (declId VD)); simpl; [apply IH|].
    rewrite IH. now rewrite <- app_assoc.
Qed.

Lemma namedLike_cons (N : string) (R : ValueDecl) (Decls : list ValueDecl) :
  namedLike FullName N (R :: Decls)
  = (if String.eqb (FullName R) N then 1 else 0) + namedLike FullName N Decls.
Proof.
  unfold namedLike. simpl filter.
  destruct (String.eqb (FullName R) N); [|lia].
  simpl List.length. rewrite Nat2Z.inj_succ. lia.
Qed.

(** As long as no counter wraps, each counter grows by the number of
    kept results that carry its name. *)
Lemma lookupRelated_names (Results : list ValueDecl) :
  forall NamesSeen RelatedDecls,
  (forall K, 0 <= NamesSeen K
             /\ NamesSeen K + Z.of_nat (List.length Results) < 2 ^ 32) ->
  forall K,
    fst (lookupRelated FullName AttrsUnavailable VD Results NamesSeen
           RelatedDecls) K
    = NamesSeen K
      + namedLike FullName K (filter (isRelated AttrsUnavailable VD) Results).
Proof.
  induction Results as [|R rest IH]; intros NamesSeen RelatedDecls Hsmall K.
  - simpl. unfold namedLike. simpl. lia.
  - assert (Hrest : forall K', 0 <= NamesSeen K'
              /\ NamesSeen K' + Z.of_nat (List.length rest) < 2 ^ 32).
    { intro K'. specialize (Hsmall K'). simpl List.length in Hsmall. lia. }
    simpl. unfold isRelated at 1.
    destruct (AttrsUnavailable R); simpl; [now apply IH|].
    destruct (Nat.eqb (declId R) (declId VD)); simpl; [now apply IH|].
    rewrite IH.
    + rewrite namedLike_cons. unfold bumpName. rewrite String.eqb_sym.
      destruct (String.eqb (FullName R) K); [|lia].
      specialize (Hsmall K). simpl List.length in Hsmall.
      rewrite wrap32_small by lia. lia.
    + intro K'. unfold bumpName.
      specialize (Hsmall K'). simpl List.length in Hsmall.
      destruct (String.eqb K' (FullName R)); [|lia].
      rewrite wrap32_small by lia. lia.
Qed.

(** X18: the declarations handed to the callback are the lookup results
    that are not unavailable and are not the declaration itself, in the
    order of the lookup, each as often as the lookup returned it. *)
Theorem related_decls_are_filtered_lookup (Results : list ValueDecl) :
  map fst (walkRelatedDecls FullName AttrsUnavailable VD Results)
  = filter (isRelated AttrsUnavailable VD) Results.
Proof.
  unfold walkRelatedDecls.
  assert (H := lookupRelated_decls Results
                 (bumpName (fun _ => 0) (FullName VD)) []).
  destruct (lookupRelated FullName AttrsUnavailable VD Results
              (bumpName (fun _ => 0) (FullName VD)) []) as [NamesSeen Related].
  simpl in H. subst Related.
  rewrite map_map. simpl. apply map_id.
Qed.

(** X19: with fewer than 2^32 - 1 lookup results, a related declaration
    is flagged as having a duplicate name exactly when its full name
    is carried more than once among the declaration itself and the
    related declarations; so a related declaration that shares the
    declaration's own full name is always flagged. *)
Theorem duplicate_flag_counts_names (Results : list ValueDecl) :
  Z.of_nat (List.length Results) + 1 < 2 ^ 32 ->
  walkRelatedDecls FullName AttrsUnavailable VD Results
  = map (fun R =>
           (R, 1 <? (if String.eqb (FullName R) (FullName VD) then 1 else 0)
                    + namedLike FullName (FullName R)
                        (filter (isRelated AttrsUnavailable VD) Results)))
      (filter (isRelated AttrsUnavailable VD) Results).
Proof.
  intro Hlen. unfold walkRelatedDecls.
  assert (Hd := lookupRelated_decls Results
                  (bumpName (fun _ => 0) (FullName VD)) []).
  assert (Hn := lookupRelated_names Results
                  (bumpName (fun _ => 0) (FullName VD)) []).
  destruct (lookupRelated FullName AttrsUnavailable VD Results
              (bumpName (fun _ => 0) (FullName VD)) []) as [NamesSeen Related].
  simpl in Hd, Hn. subst Related.
  apply map_ext. intro R. f_equal. f_equal.
  rewrite Hn.
  - unfold bumpName. destruct (String.eqb (FullName R) (FullName VD));
      [now rewrite wrap32_small by (simpl; lia) | reflexivity].
  - intro K. unfold bumpName.
    destruct (String.eqb K (FullName VD)).
    + rewrite wrap32_small by (simpl; lia). lia.
    + lia.
Qed.

End RelatedDeclsProperties.

Lemma duplicate_flag_counts_names_witness :
  walkRelatedDecls MoreExamples.fullNameOf MoreExamples.noneUnavailable
    MoreExamples.overloadA
    [MoreExamples.otherName; MoreExamples.overloadA; MoreExamples.overloadB]
  = [(MoreExamples.otherName, false); (MoreExamples.overloadB, true)].
Proof.
  rewrite (duplicate_flag_counts_names MoreExamples.fullNameOf
             MoreExamples.noneUnavailable MoreExamples.overloadA
             [MoreExamples.otherName; MoreExamples.overloadA;
              MoreExamples.overloadB]).
  - reflexivity.
  - vm_compute. reflexivity.
Defined.

(** * Properties of the related-identifier scanner *)

Section ScannerProperties.

Lemma walk_running (Scope : list SourceEntity) (Target : nat)
    (Found : list (Z * Z)) :
  walk (mkScanner Target Found false) Scope
  = mkScanner Target
      (Found ++ map rangeOf (filter (denotes Target) Scope)) false.
Proof.
  revert Found. induction Scope as [|Site rest IH]; intro Found; simpl.
  - now rewrite app_nil_r.
  - destruct Site as [D Range | D Range CtorTyRef];
      unfold walkToDeclPre, visitDeclReference, passId; simpl.
    + destruct (Nat.eqb D Target); simpl; rewrite IH;
        [now rewrite <- app_assoc | reflexivity].
    + destruct (Nat.eqb _ Target); simpl; rewrite IH;
        [now rewrite <- app_assoc | reflexivity].
Qed.

(** X20: a scanner that is not cancelled adds, to the ranges it holds,
    the range of every site of the scope that is the target's
    declaration, a reference to it or a constructor call through it, in
    the order of the sites, and stays not cancelled; a cancelled scanner
    comes back from the walk as it went in. *)
Theorem scanner_walk_result (S : RelatedIdScanner)
    (Scope : list SourceEntity) :
  walk S Scope
  = if Cancelled S then S
    else mkScanner (Dcl S)
           (Ranges S ++ map rangeOf (filter (denotes (Dcl S)) Scope)) false.
Proof.
  destruct S as [Target Found [|]]; simpl Cancelled.
  - destruct Scope as [|[D Range | D Range CtorTyRef] rest]; reflexivity.
  - apply walk_running.
Qed.

(** X21: every range [relatedIdAction] returns is the range of a site,
    of the local context of the declaration the token denotes or of the
    source file, that denotes that declaration; nothing else is ever
    returned. *)
Theorem related_ranges_come_from_sites (O : Z) (Unit : ASTUnit)
    (Range : Z * Z) :
  In Range (relatedIdAction O Unit) ->
  exists Loc VD Site,
    getLocForStartOfToken Unit O = Some Loc
    /\ targetDecl (resolve Unit Loc) = Some VD
    /\ In Site match localContext VD with
               | Some LocalDC => LocalDC
               | None => primarySourceFile Unit
               end
    /\ denotes (declId VD) Site = true
    /\ rangeOf Site = Range.
Proof.
  unfold relatedIdAction.
  destruct (getLocForStartOfToken Unit O) as [Loc|] eqn:HLoc; [|contradiction].
  destruct (isInvalid (resolve Unit Loc)); [contradiction|].
  destruct (IsKeywordArgument (resolve Unit Loc)); [contradiction|].
  destruct (targetDecl (resolve Unit Loc)) as [VD|] eqn:HVD; [|contradiction].
  destruct (negb (IsRef (resolve Unit Loc)) && isCtorDtorOrSubscript VD);
    [contradiction|].
  destruct (nameIsOperator VD); [contradiction|].
  intro HIn.
  assert (HIn' : In Range
            (map rangeOf
               (filter (denotes (declId VD))
                  match localContext VD with
                  | Some LocalDC => LocalDC
                  | None => primarySourceFile Unit
                  end))).
  { destruct (localContext VD); rewrite walk_running in HIn; exact HIn. }
  apply in_map_iff in HIn'. destruct HIn' as (Site & HR & HS).
  apply filter_In in HS. destruct HS as [HS Hd].
  exists Loc, VD, Site.
  split; [reflexivity|]. split; [exact HVD|]. split; [exact HS|].
  split; [exact Hd | exact HR].
Qed.

End ScannerProperties.

Lemma related_ranges_come_from_sites_witness :
  In (30, 1)
    (relatedIdAction 0
       (Examples.unitOf [] (Examples.tokenOf Examples.locatedDecl true false)))
  /\ exists Site,
       In Site Examples.fileSites /\ rangeOf Site = (30, 1).
Proof.
  assert (HIn : In (30, 1)
            (relatedIdAction 0
               (Examples.unitOf []
                  (Examples.tokenOf Examples.locatedDecl true false))))
    by (vm_compute; tauto).
  split; [exact HIn|].
  destruct (related_ranges_come_from_sites 0 _ (30, 1) HIn)
    as (Loc & VD & Site & HLoc & HVD & HSite & _ & HRange).
  injection HLoc as <-. injection HVD as <-.
  exists Site. split; assumption.
Defined.

(** * Properties of the generic specializer *)

Section SpecializerProperties.
Variable St : Type.
Variable trySpecialize : St -> SILInstruction -> St * list nat * list nat.

Lemma visitInstruction_skips (Inst : SILInstruction)
    (Acc : St * list nat * list PassEvent) :
  isSpecializable Inst = false ->
  visitInstruction St trySpecialize Inst Acc = Acc.
Proof.
  unfold isSpecializable, visitInstruction.
  destruct Acc as [[M Dead] Log].
  destruct (isApplySite Inst); simpl; [|reflexivity].
  destruct (hasSubstitutions Inst); simpl; [|reflexivity].
  destruct (referencedFunction Inst) as [[Callee Def]|]; [|reflexivity].
  now intros ->.
Qed.

Lemma visitFunction_concat (F : list (list SILInstruction)) :
  forall Acc,
  visitFunction St trySpecialize F Acc
  = visitBlock St trySpecialize (List.concat F) Acc.
Proof.
  induction F as [|BB rest IH]; intro Acc; simpl; [reflexivity|].
  rewrite IH. clear IH. revert Acc.
  induction BB as [|Inst BB IHB]; intro Acc; simpl; [reflexivity|].
  apply IHB.
Qed.

Lemma visitBlock_filter (BB : list SILInstruction) :
  forall Acc,
  visitBlock St trySpecialize BB Acc
  = visitBlock St trySpecialize (filter isSpecializable BB) Acc.
Proof.
  induction BB as [|Inst rest IH]; intro Acc; simpl; [reflexivity|].
  destruct (isSpecializable Inst) eqn:Hs; simpl.
  - apply IH.
  - rewrite (visitInstruction_skips Inst Acc Hs). apply IH.
Qed.

Lemma removeDeadApplies_all (fromBack : list nat) :
  forall Log Changed,
  removeDeadApplies fromBack Log Changed
  = (Log ++ map DeleteDeadInstruction fromBack,
     match fromBack with [] => Changed | _ :: _ => true end).
Proof.
  induction fromBack as [|AI rest IH]; intros Log Changed; simpl.
  - now rewrite app_nil_r.
  - rewrite IH, <- app_assoc. simpl. now destruct rest.
Qed.

(** The loop never logs a deletion. *)
Lemma visitBlock_log (BB : list SILInstruction) :
  forall M Dead Log,
  exists Notified,
    snd (visitBlock St trySpecialize BB (M, Dead, Log))
    = Log ++ map NotifyPassManager Notified.
Proof.
  induction BB as [|Inst rest IH]; intros M Dead Log; simpl.
  - exists []. simpl. now rewrite app_nil_r.
  - unfold visitInstruction.
    destruct (negb (isApplySite Inst) || negb (hasSubstitutions Inst));
      [apply IH|].
    destruct (referencedFunction Inst) as [[Callee Def]|]; [|apply IH].
    destruct (negb Def); [apply IH|].
    destruct (trySpecialize M Inst) as [[M' D] NewF].
    destruct (IH M' (Dead ++ D) (Log ++ map NotifyPassManager (rev NewF)))
      as [Notified ->].
    exists (rev NewF ++ Notified).
    now rewrite map_app, app_assoc.
Qed.

(** X22: the pass first visits every instruction, notifying the pass
    manager of new functions, and only then deletes: the log is a run
    of notifications followed by the deletion of the reported dead
    applies, latest report first, each once; and it reports a change
    exactly when some dead apply was reported, however many functions
    were created. *)
Theorem specializer_deletes_after_visiting (M : St)
    (F : list (list SILInstruction)) :
  exists M' DeadApplies Notified,
    visitFunction St trySpecialize F (M, [], [])
    = (M', DeadApplies, map NotifyPassManager Notified)
    /\ specializeAppliesInFunction St trySpecialize M F
       = (M',
          map NotifyPassManager Notified
          ++ map DeleteDeadInstruction (rev DeadApplies),
          match DeadApplies with [] => false | _ :: _ => true end).
Proof.
  unfold specializeAppliesInFunction.
  rewrite visitFunction_concat.
  destruct (visitBlock_log (List.concat F) M [] []) as [Notified HLog].
  destruct (visitBlock St trySpecialize (List.concat F) (M, [], []))
    as [[M' Dead] Log].
  simpl in HLog. subst Log.
  exists M', Dead, Notified. split; [reflexivity|].
  rewrite removeDeadApplies_all.
  f_equal. destruct Dead as [|AI rest]; [reflexivity|].
  simpl. now destruct (rev rest ++ [AI]) eqn:E;
    [apply app_eq_nil in E; destruct E; discriminate|].
Qed.

(** X23: instructions that are no apply, that have no substitutions,
    whose callee is not known or whose callee has no body do not count,
    and neither does the split into blocks: the pass does what it does
    on the one block of the instructions it can specialize; in
    particular a function without such an instruction is left alone and
    reported unchanged. *)
Theorem specializer_sees_only_specializable (M : St)
    (F : list (list SILInstruction)) :
  specializeAppliesInFunction St trySpecialize M F
  = specializeAppliesInFunction St trySpecialize M
      [filter isSpecializable (List.concat F)]
  /\ (filter isSpecializable (List.concat F) = [] ->
      specializeAppliesInFunction St trySpecialize M F = (M, [], false)).
Proof.
  assert (Heq : visitFunction St trySpecialize F (M, [], [])
                = visitFunction St trySpecialize
                    [filter isSpecializable (List.concat F)] (M, [], [])).
  { rewrite !visitFunction_concat. simpl List.concat. rewrite app_nil_r.
    apply visitBlock_filter. }
  split.
  - unfold specializeAppliesInFunction. now rewrite Heq.
  - intro Hnone. unfold specializeAppliesInFunction.
    rewrite Heq, Hnone. reflexivity.
Qed.

End SpecializerProperties.

Lemma specializer_sees_only_specializable_witness :
  filter isSpecializable
    (List.concat [[MoreExamples.notAnApply]; [MoreExamples.plainApply]]) = []
  /\ specializeAppliesInFunction nat MoreExamples.alwaysSpecializes 0%nat
       [[MoreExamples.notAnApply]; [MoreExamples.plainApply]]
     = (0%nat, [], false).
Proof.
  split; [reflexivity|].
  apply (specializer_sees_only_specializable nat
           MoreExamples.alwaysSpecializes 0%nat
           [[MoreExamples.notAnApply]; [MoreExamples.plainApply]]).
  reflexivity.
Defined.

(** * Properties of the declaration printers' first loop *)

Section PrinterProperties.
Variable IsImplicit : ValueDecl -> bool.

(** X24: the declaration the two annotated printers print is the first
    one, going from the declaration up its chain of overridden
    declarations, that is not implicit, and the top of the chain when
    all of them are implicit; every declaration passed over is
    implicit. *)
Theorem printed_decl_is_first_explicit (VD : ValueDecl)
    (Overridden : list ValueDecl) :
  exists Skipped Above,
    VD :: Overridden = Skipped ++ declToPrint IsImplicit VD Overridden :: Above
    /\ Forall (fun D => IsImplicit D = true) Skipped
    /\ (IsImplicit (declToPrint IsImplicit VD Overridden) = false
        \/ Above = []).
Proof.
  revert VD. induction Overridden as [|Up rest IH]; intro VD; simpl.
  - exists [], []. repeat split; [constructor | now right].
  - destruct (IsImplicit VD) eqn:Himp.
    + destruct (IH Up) as (Skipped & Above & Heq & Hall & Hend).
      exists (VD :: Skipped), Above. split; [simpl; now rewrite <- Heq|].
      split; [now constructor | exact Hend].
    + exists [], (Up :: rest). repeat split; [constructor | now left].
Qed.

End PrinterProperties.

(** * Reuse and acceptance *)

Section ReuseProperties.
Context `{Ext : Collaborators}.

(** X25: a query answers from the AST at hand exactly when that AST
    exists and the consumer accepted it; in every other case it asks for
    a build. *)
Theorem existing_ast_used_only_if_accepted (fuel : nat)
    (Mgr : SwiftASTManager) (Lang : SwiftLangSupport) (File : string)
    (O : Z) (Try : bool) (built : nat) (T : list Event) :
  resolveCursor (S (S fuel)) Mgr Lang File O Try built = Some T ->
  (In EvExistingAST T <->
   exists E C',
     getExistingAST Mgr = Some E
     /\ canUseASTWithSnapshots Lang (mkConsumer File O Try [])
          (getSnapshots E) = (true, C'))
  /\ (~ In EvExistingAST T -> In EvBuildAST T).
Proof.
  intro HT.
  assert (Hfresh : (forall U, getExistingAST Mgr = Some U ->
             fst (canUseASTWithSnapshots Lang (mkConsumer File O Try [])
                    (getSnapshots U)) = false) ->
          ~ In EvExistingAST T /\ In EvBuildAST T).
  { intro Hrej.
    destruct (resolveCursor_fresh (S fuel) Mgr Lang File O Try built Hrej)
      as (Info & _ & Hrun).
    rewrite Hrun in HT. injection HT as <-. split.
    - simpl. intros [H|[H|[H|[]]]]; discriminate.
    - simpl. tauto. }
  destruct (getExistingAST Mgr) as [E|] eqn:HE.
  - destruct (canUseASTWithSnapshots Lang (mkConsumer File O Try [])
                (getSnapshots E)) as [Use C'] eqn:Hacc.
    destruct Use.
    + rewrite (resolveCursor_accepts (S fuel) Mgr Lang File O Try built E C'
                 HE Hacc) in HT.
      destruct (handlePrimaryAST (resolveCursor (S fuel) Mgr Lang File) Lang
                  C' E built) as [Rest|]; [|discriminate].
      injection HT as <-.
      assert (HIn : In EvExistingAST
                (EvResolveCursor O Try :: EvExistingAST :: Rest))
        by (simpl; tauto).
      split; [|intro Hno; contradiction].
      split; [intros _; now exists E, C' | intros _; exact HIn].
    + destruct Hfresh as [Hno Hb].
      * intros U HU. injection HU as <-. now rewrite Hacc.
      * split; [|intros _; exact Hb].
        split; [intro H; contradiction|].
        intros (E' & C'' & HE' & Hacc'). injection HE' as <-.
        rewrite Hacc in Hacc'. discriminate.
  - destruct Hfresh as [Hno Hb]; [intros U HU; discriminate|].
    split; [|intros _; exact Hb].
    split; [intro H; contradiction|].
    intros (E' & C'' & HE' & _). discriminate.
Qed.

End ReuseProperties.

Lemma printed_decl_is_first_explicit_witness :
  declToPrint MoreExamples.implicitOnly21 MoreExamples.implicitOverride
    [MoreExamples.explicitBase; MoreExamples.rootDecl]
  = MoreExamples.explicitBase
  /\ exists Skipped Above,
       [MoreExamples.implicitOverride; MoreExamples.explicitBase;
        MoreExamples.rootDecl]
       = Skipped ++ MoreExamples.explicitBase :: Above
       /\ Forall (fun D => MoreExamples.implicitOnly21 D = true) Skipped.
Proof.
  split; [reflexivity|].
  destruct (printed_decl_is_first_explicit MoreExamples.implicitOnly21
              MoreExamples.implicitOverride
              [MoreExamples.explicitBase; MoreExamples.rootDecl])
    as (Skipped & Above & Heq & Hall & _).
  exists Skipped, Above. split; assumption.
Defined.

Lemma existing_ast_used_only_if_accepted_witness :
  let T := [EvResolveCursor 4 true; EvBuildAST; EvReceiver emptyCursorInfo] in
  resolveCursor (Ext := Examples.insertedY) 2 Examples.staleManager
    Examples.lang "a.swift" 4 true 0 = Some T
  /\ fst (canUseASTWithSnapshots (Ext := Examples.insertedY) Examples.lang
            (mkConsumer "a.swift" 4 true []) [Examples.oldSnap]) = false
  /\ In EvBuildAST T.
Proof.
  intro T. split; [reflexivity|]. split; [reflexivity|].
  destruct (existing_ast_used_only_if_accepted (Ext := Examples.insertedY) 0
              Examples.staleManager Examples.lang "a.swift" 4 true 0 T
              eq_refl) as [_ Builds].
  apply Builds. simpl. intros [H|[H|[H|[]]]]; discriminate.
Defined.
